(** * Reversible-reaction simulator: the kinetics model and its driver

    A shallow embedding of [reversible_reaction_simulator_with_custom_font.py].
    The script keeps two lists of species in the Streamlit session state, reads
    the equilibrium constant [K], the forward rate constant [kf] and the
    simulated time [time_end] from number widgets, and on "run" integrates the
    mass-action right-hand side [reaction_rate] over [np.linspace(0, time_end,
    1000)] with [scipy.integrate.odeint].

    Numbers are Python floats, that is IEEE 754 binary64.  They are modelled
    with the executable specification of binary floating point of the standard
    library ([SpecFloat], precision 53, exponent bound 1024): rounding to
    nearest even, signed zeros, infinities and NaN are all part of the model. *)

From Stdlib Require Import String ZArith List Bool Lia.
From Stdlib Require Import Floats.SpecFloat.
Import ListNotations.

Local Open Scope string_scope.
Local Open Scope list_scope.

(** ** Binary64 arithmetic *)

Module F64.

Definition prec : Z := 53.
Definition emax : Z := 1024.

Definition float : Type := spec_float.

Definition add : float -> float -> float := SFadd prec emax.
Definition sub : float -> float -> float := SFsub prec emax.
Definition mul : float -> float -> float := SFmul prec emax.
Definition div : float -> float -> float := SFdiv prec emax.
Definition opp : float -> float := SFopp.

Definition eqb : float -> float -> bool := SFeqb.
Definition ltb : float -> float -> bool := SFltb.
Definition leb : float -> float -> bool := SFleb.

(** [float(z)] for a Python integer [z]: the nearest binary64 number. *)
Definition of_Z (z : Z) : float := binary_normalize prec emax z 0 false.
Definition of_nat (n : nat) : float := of_Z (Z.of_nat n).

Definition zero : float := S754_zero false.
Definition one : float := of_Z 1.
Definition nan : float := S754_nan.
Definition infinity : float := S754_infinity false.

Definition is_zero (x : float) : bool :=
  match x with S754_zero _ => true | _ => false end.

(** Neither an infinity nor NaN. *)
Definition is_finite (x : float) : bool :=
  match x with S754_zero _ | S754_finite _ _ _ => true | _ => false end.

(** The values a Python float can hold: mantissa and exponent in range. *)
Definition well_formed (x : float) : bool := valid_binary prec emax x.

(** [x] and [y] denote the same number: the same datum, or two zeros
    (IEEE 754 has [+0.0] and [-0.0], which compare equal). *)
Definition same_number (x y : float) : Prop :=
  x = y \/ (is_zero x = true /\ is_zero y = true).

End F64.

Import F64.

Declare Scope f64_scope.
Delimit Scope f64_scope with f64.
Infix "+" := add : f64_scope.
Infix "-" := sub : f64_scope.
Infix "*" := mul : f64_scope.
Infix "/" := div : f64_scope.
Notation "- x" := (opp x) : f64_scope.

(** ** Python exceptions and results *)

Inductive exn : Type :=
| ZeroDivisionError   (* float division by zero *)
| ValueError          (* odeint: sample times not monotone *)
| RuntimeError.       (* odeint: the callback returned a vector of the wrong size *)

Inductive result (A : Type) : Type :=
| Ok (a : A)
| Raise (e : exn).

Arguments Ok {A} a.
Arguments Raise {A} e.

Definition bind {A B : Type} (r : result A) (k : A -> result B) : result B :=
  match r with
  | Ok a => k a
  | Raise e => Raise e
  end.

Notation "x <- r ;; k" := (bind r (fun x => k))
  (at level 61, r at next level, right associativity).

(** Python's [x / y] on floats: a zero divisor of either sign raises. *)
Definition py_truediv (x y : float) : result float :=
  if eqb y zero then Raise ZeroDivisionError else Ok (x / y)%f64.

(** ** Session state *)

Record species : Type := { name : string; initial : float }.

Record session_state : Type :=
  { reactants : list species; products : list species }.

(** Code run against the session state: it returns a value and the state it
    leaves behind. *)
Definition script (A : Type) : Type := session_state -> A * session_state.

(** Lines 31-34: the "add reactant" button. *)
Definition add_reactant (reactant_name : string) (reactant_initial : float)
  : script unit :=
  fun st =>
    if String.eqb reactant_name EmptyString then (tt, st)
    else (tt, {| reactants := reactants st ++
                              [{| name := reactant_name; initial := reactant_initial |}];
                 products := products st |}).

(** Lines 49-52: the "add product" button. *)
Definition add_product (product_name : string) (product_initial : float)
  : script unit :=
  fun st =>
    if String.eqb product_name EmptyString then (tt, st)
    else (tt, {| reactants := reactants st;
                 products := products st ++
                             [{| name := product_name; initial := product_initial |}] |}).

(** ** The kinetics model *)

(** [np.prod] of a one-dimensional float array: the running product, 1.0 for
    the empty array. *)
Definition np_prod (a : list float) : float := fold_left mul a one.

(** [for _ in range(n): dCdt.append(v)] *)
Fixpoint append_times (n : nat) (v : float) (dCdt : list float) : list float :=
  match n with
  | O => dCdt
  | S n' => append_times n' v (dCdt ++ [v])
  end.

(** Lines 81-96.  The species counts are not arguments: they are read from the
    session state at every call. *)
Definition reaction_rate (C : list float) (t kf K : float)
  : script (result (list float)) :=
  fun st =>
    (kr <- py_truediv kf K ;;
     let n_reactants := length (reactants st) in
     let n_products := length (products st) in
     let reactants_conc := firstn n_reactants C in
     let products_conc := skipn n_reactants C in
     let forward_rate := (kf * np_prod reactants_conc)%f64 in
     let reverse_rate := (kr * np_prod products_conc)%f64 in
     let dCdt := [] in
     let dCdt := append_times n_reactants (- forward_rate + reverse_rate)%f64 dCdt in
     let dCdt := append_times n_products (forward_rate - reverse_rate)%f64 dCdt in
     Ok dCdt,
     st).

(** The intermediate quantities of the rate function, for statements. *)
Definition forward_rate (n_reactants : nat) (C : list float) (kf : float) : float :=
  (kf * np_prod (firstn n_reactants C))%f64.

Definition reverse_rate (n_reactants : nat) (C : list float) (kf K : float) : float :=
  ((kf / K) * np_prod (skipn n_reactants C))%f64.

Definition net_rate (n_reactants : nat) (C : list float) (kf K : float) : float :=
  (forward_rate n_reactants C kf - reverse_rate n_reactants C kf K)%f64.

(** ** The sample times *)

(** [np.linspace(start, stop, num)] with the default [endpoint=True], as numpy
    computes it: [arange(num) * step + start] with [step = (stop - start) /
    (num - 1)], the last sample overwritten with [stop].  When the step
    underflows to zero numpy divides first and multiplies afterwards. *)
Definition linspace (start stop : float) (num : nat) : list float :=
  let div_ := (num - 1)%nat in
  let delta := (stop - start)%f64 in
  let y := map of_nat (seq 0 num) in
  let y :=
    if (0 <? div_)%nat then
      let step := (delta / of_nat div_)%f64 in
      if eqb step zero
      then map (fun v => ((v / of_nat div_) * delta)%f64) y
      else map (fun v => (v * step)%f64) y
    else map (fun v => (v * delta)%f64) y in
  let y := map (fun v => (v + start)%f64) y in
  if (1 <? num)%nat then removelast y ++ [stop] else y.

(** The spacing numpy computes, and the [i]-th sample before the endpoint is
    pinned: [i] steps away from [start]. *)
Definition linspace_step (start stop : float) (num : nat) : float :=
  ((stop - start) / of_nat (num - 1))%f64.

Definition linspace_sample (start stop : float) (num i : nat) : float :=
  let step := linspace_step start stop num in
  ((if (0 <? num - 1)%nat then
      if eqb step zero
      then (of_nat i / of_nat (num - 1)) * (stop - start)
      else of_nat i * step
    else of_nat i * (stop - start)) + start)%f64.

(** The number of samples is a constant of the script (line 102). *)
Definition num_samples : nat := 1000.

(** Line 67: the durations the script can run with.  [time_end] is the value
    of [number_input(min_value=1.0)]: a Python float, neither an infinity nor
    NaN, and at least [1.0]. *)
Definition duration_input (time_end : float) : bool :=
  well_formed time_end && is_finite time_end && leb one time_end.

(** ** Magnitudes

    For the order of the sample times, values are compared as integers in
    units of [2 ^ base], where [base] is any exponent below the ones at hand. *)

Definition scaled (base m e : Z) : Z := (m * 2 ^ (e - base))%Z.

(** The value of a positive finite number (zero for every other datum). *)
Definition fval (base : Z) (x : float) : Z :=
  match x with
  | S754_finite false m e => scaled base (Zpos m) e
  | _ => 0%Z
  end.

(** A positive zero, or a positive finite number whose exponent is at least
    [k]. *)
Definition regular (k : Z) (x : float) : Prop :=
  match x with
  | S754_zero false => True
  | S754_finite false m e => (k <= e)%Z
  | _ => False
  end.

(** The value of a finite number, with its sign, in units of [2 ^ -1074], the
    least positive binary64 number: an integer for every Python float (zero
    for the infinities and NaN). *)
Definition value (x : float) : Z :=
  match x with
  | S754_finite s m e => cond_Zopp s (scaled (-1074) (Zpos m) e)
  | _ => 0%Z
  end.

(** A finite number of magnitude below [2 ^ 19 = 524288]. *)
Definition moderate (x : float) : bool :=
  match x with
  | S754_zero _ => true
  | S754_finite _ m e =>
      ((-1074 <=? e) && (scaled (-1074) (Zpos m) e <? 2 ^ (19 + 1074)))%Z
  | _ => false
  end.


(** The sum of the concentrations of a row, as an exact number. *)
Definition total (row : list float) : Z := fold_right Z.add 0%Z (map value row).

(** [float(num_samples - 1)], the number of intervals of the sample grid. *)
Definition intervals : float := S754_finite false 8787296929185792 (-43).

(** The sample counts below a thousand are exact in binary64, with a full
    mantissa. *)
Definition count_exact (i : nat) : bool :=
  match of_nat i with
  | S754_finite false mi ei =>
      ((-52 <=? ei) && (ei <=? 0) && (Zpos mi =? Z.of_nat i * 2 ^ (- ei)) &&
       (2 ^ 52 <=? Zpos mi))%Z
  | _ => false
  end.

(** ** The integrator *)

(** The callback [func(y, t, kf, K)] handed to [odeint]. *)
Definition rhs : Type := list float -> float -> float -> float -> result (list float).

(** [odeint(func, y0, t, args=(kf, K))]: one row of the solution per sample
    time, or an exception. *)
Definition integrator : Type :=
  rhs -> list float -> list float -> float * float -> result (list (list float)).

(** [np.diff] *)
Fixpoint diff (t : list float) : list float :=
  match t with
  | a :: (b :: _) as rest => (b - a)%f64 :: diff rest
  | _ => []
  end.

(** The test [odeint] makes on its sample times before anything else:
    [(dt >= 0).all() or (dt <= 0).all()]. *)
Definition monotone (t : list float) : bool :=
  forallb (fun d => leb zero d) (diff t) || forallb (fun d => leb d zero) (diff t).

(** Some sample time differs from the first one, so the integrator has to
    leave its starting point. *)
Definition advances (t : list float) : bool :=
  match t with
  | [] => false
  | t0 :: ts => existsb (fun s => negb (eqb s t0)) ts
  end.

(** What the script relies on from [scipy.integrate.odeint]: the solution has
    the shape [(len(t), len(y0))], its first row is [y0], and an exception
    raised by the callback at the starting point, where a proper integration
    evaluates it first, comes out of [odeint] unchanged. *)
Record odeint_contract (odeint : integrator) : Prop :=
  { odeint_shape :
      forall func y0 t args solution,
        odeint func y0 t args = Ok solution ->
        length solution = length t /\
        Forall (fun row => length row = length y0) solution;
    odeint_initial_row :
      forall func y0 t args solution,
        odeint func y0 t args = Ok solution ->
        t <> [] ->
        hd_error solution = Some y0;
    odeint_callback_error :
      forall func y0 t args e,
        y0 <> [] ->
        monotone t = true ->
        advances t = true ->
        func y0 (hd zero t) (fst args) (snd args) = Raise e ->
        odeint func y0 t args = Raise e }.

Arguments odeint_shape {odeint}.
Arguments odeint_initial_row {odeint}.
Arguments odeint_callback_error {odeint}.

(** Where the exceptions of [odeint] come from.  [odeint] raises [ValueError]
    on sample times that are not monotone and [RuntimeError] on a callback
    result of the wrong size; any other exception is one the callback raised
    (an integration that does not converge is reported by a warning, and the
    array is returned all the same).  And it does not return a solution over
    sample times that leave the starting point without the callback having
    returned a derivative at least once. *)
Record odeint_failures (odeint : integrator) : Prop :=
  { odeint_raises :
      forall func y0 t args e,
        y0 <> [] -> t <> [] ->
        odeint func y0 t args = Raise e ->
        (e = ValueError /\ monotone t = false) \/
        (e = RuntimeError /\
         exists y s dy,
           func y s (fst args) (snd args) = Ok dy /\ length dy <> length y0) \/
        (exists y s, func y s (fst args) (snd args) = Raise e);
    odeint_evaluates :
      forall func y0 t args solution,
        y0 <> [] -> advances t = true ->
        odeint func y0 t args = Ok solution ->
        exists y s dy, func y s (fst args) (snd args) = Ok dy }.

Arguments odeint_raises {odeint}.
Arguments odeint_evaluates {odeint}.

(** A reference integrator meeting the contract: the explicit Euler method on
    the sample grid. *)
Fixpoint euler_update (h : float) (y dy : list float) : list float :=
  match y, dy with
  | yi :: y', di :: dy' => (yi + h * di)%f64 :: euler_update h y' dy'
  | _, _ => []
  end.

Fixpoint euler_steps (func : rhs) (args : float * float) (y : list float)
    (t_prev : float) (ts : list float) : result (list (list float)) :=
  match ts with
  | [] => Ok []
  | t_next :: ts' =>
      if eqb t_next t_prev then
        rows <- euler_steps func args y t_prev ts' ;;
        Ok (y :: rows)
      else
        dy <- func y t_prev (fst args) (snd args) ;;
        if (length dy =? length y)%nat then
          let y' := euler_update (t_next - t_prev)%f64 y dy in
          rows <- euler_steps func args y' t_next ts' ;;
          Ok (y' :: rows)
        else Raise RuntimeError
  end.

Definition odeint_euler : integrator :=
  fun func y0 t args =>
    if monotone t then
      match t with
      | [] => Ok []
      | t0 :: ts =>
          rows <- euler_steps func args y0 t0 ts ;;
          Ok (y0 :: rows)
      end
    else Raise ValueError.

(** ** The run-simulation handler *)

(** Line 99: reactants first, then products. *)
Definition initial_concentrations (st : session_state) : list float :=
  map initial (reactants st) ++ map initial (products st).

(** Line 109: the species names, in the order of the solution's columns. *)
Definition species_names (st : session_state) : list string :=
  map name (reactants st) ++ map name (products st).

Record trajectory : Type :=
  { times : list float; concentrations : list (list float) }.

(** Lines 98-105, the branch taken when both lists are non-empty.  The
    callback is the closure [reaction_rate] over the current session state. *)
Definition simulate (odeint : integrator) (kf K time_end : float)
  : script (result trajectory) :=
  fun st =>
    let func : rhs := fun C t kf K => fst (reaction_rate C t kf K st) in
    let y0 := initial_concentrations st in
    let t := linspace zero time_end num_samples in
    (solution <- odeint func y0 t (kf, K) ;;
     Ok {| times := t; concentrations := solution |},
     st).

Inductive outcome : Type :=
| Rejected (message : string)  (* [st.error]: nothing is computed *)
| Failed (e : exn)             (* an exception leaves the handler *)
| Solved (tr : trajectory).    (* the trajectory handed to the plot *)

Definition is_empty {A : Type} (l : list A) : bool :=
  match l with [] => true | _ => false end.

(** Line 77. *)
Definition missing_species_message : string :=
  "請至少新增一個反應物和一個產物！".

(** Lines 75-105. *)
Definition run_simulation (odeint : integrator) (kf K time_end : float)
  : script outcome :=
  fun st =>
    if is_empty (reactants st) || is_empty (products st) then
      (Rejected missing_species_message, st)
    else
      match simulate odeint kf K time_end st with
      | (Ok tr, st') => (Solved tr, st')
      | (Raise e, st') => (Failed e, st')
      end.

(** The number of rows of the trajectory a run ended with, if it ended with
    one. *)
Definition solved_rows (o : outcome) : option nat :=
  match o with
  | Solved tr => Some (length (concentrations tr))
  | _ => None
  end.

(** ** Editing the species lists *)

(** [l.pop(i)] for an index [i >= 0]: the list without its [i]-th element;
    [None] stands for Python's [IndexError] (pop index out of range). *)
Definition list_pop {A : Type} (i : nat) (l : list A) : option (list A) :=
  if (i <? length l)%nat then Some (firstn i l ++ skipn (S i) l) else None.

(** Lines 41-43: the "remove" button of reactant [i], followed by a rerun of
    the script. *)
Definition remove_reactant (i : nat) (st : session_state) : option session_state :=
  match list_pop i (reactants st) with
  | Some remaining => Some {| reactants := remaining; products := products st |}
  | None => None
  end.

(** Lines 59-61: the "remove" button of product [i]. *)
Definition remove_product (i : nat) (st : session_state) : option session_state :=
  match list_pop i (products st) with
  | Some remaining => Some {| reactants := reactants st; products := remaining |}
  | None => None
  end.

(** The buttons that edit the species lists; at most one of them is pressed in
    a run of the script. *)
Inductive edit : Type :=
| Add_reactant (reactant_name : string) (reactant_initial : float)
| Remove_reactant (i : nat)
| Add_product (product_name : string) (product_initial : float)
| Remove_product (i : nat).

Definition apply_edit (ed : edit) (st : session_state) : option session_state :=
  match ed with
  | Add_reactant n c => Some (snd (add_reactant n c st))
  | Remove_reactant i => remove_reactant i st
  | Add_product n c => Some (snd (add_product n c st))
  | Remove_product i => remove_product i st
  end.

(** One run of the script per edit, the session state carried from run to
    run. *)
Fixpoint apply_edits (eds : list edit) (st : session_state) : option session_state :=
  match eds with
  | [] => Some st
  | ed :: rest =>
      match apply_edit ed st with
      | Some st' => apply_edits rest st'
      | None => None
      end
  end.

(** ** The font and the plot *)

Inductive font : Type := FontProperties (fname : string).

(** Line 9. *)
Definition font_path : string := "font.otf".

(** Line 11. *)
Definition missing_font_message : string :=
  "字型檔案 font.otf 不存在！請確認檔案路徑。".

(** Lines 10-13: the message shown, if any, and the value bound to
    [custom_font], if the name is bound at all. *)
Definition load_font (path_exists : string -> bool) : option string * option font :=
  if path_exists font_path
  then (None, Some (FontProperties font_path))
  else (Some missing_font_message, None).

(** What can leave the run handler as an exception. *)
Inductive page_exn : Type :=
| FromSimulation (e : exn)    (* raised in lines 81-105 *)
| IndexError                  (* [solution[:, i]] without a column [i] *)
| PlotValueError              (* [ax.plot]: x and y of different lengths *)
| NameError (unbound : string).

(** [solution[:, i]] *)
Fixpoint column (i : nat) (solution : list (list float)) : option (list float) :=
  match solution with
  | [] => Some []
  | row :: rest =>
      match nth_error row i, column i rest with
      | Some v, Some below => Some (v :: below)
      | _, _ => None
      end
  end.

Record line2d : Type :=
  { label : string; xdata : list float; ydata : list float }.

(** [ax.plot(t, solution[:, i], label=species)] *)
Definition ax_plot (t : list float) (i : nat) (solution : list (list float))
    (species : string) (drawn : list line2d) : page_exn + list line2d :=
  match column i solution with
  | None => inl IndexError
  | Some ys =>
      if (length t =? length ys)%nat
      then inr (drawn ++ [{| label := species; xdata := t; ydata := ys |}])
      else inl PlotValueError
  end.

(** Line 110: [species in selected_species]. *)
Definition is_selected (selected_species : list string) (species : string) : bool :=
  existsb (String.eqb species) selected_species.

(** Lines 109-111: [for i, species in enumerate(names)], each selected
    species drawn from its column. *)
Fixpoint plot_species (names : list string) (i : nat) (selected_species : list string)
    (t : list float) (solution : list (list float)) (drawn : list line2d)
  : page_exn + list line2d :=
  match names with
  | [] => inr drawn
  | species :: rest =>
      if is_selected selected_species species then
        match ax_plot t i solution species drawn with
        | inl e => inl e
        | inr drawn' => plot_species rest (S i) selected_species t solution drawn'
        end
      else plot_species rest (S i) selected_species t solution drawn
  end.

Record figure : Type :=
  { lines : list line2d;
    title : string;
    xlabel : string;
    ylabel : string;
    text_font : font;
    legend : bool;
    grid : bool }.

Inductive page_outcome : Type :=
| Shown_error (message : string)  (* [st.error] *)
| Raised (e : page_exn)           (* an exception leaves the script *)
| Shown_plot (fig : figure).      (* [st.pyplot(fig)] *)

(** Lines 75-121: the run button, from the guard to the plot.  [custom_font]
    is the binding left by lines 10-13, [selected_species] the value of the
    multiselect of line 72. *)
Definition run_button (odeint : integrator) (custom_font : option font)
    (selected_species : list string) (kf K time_end : float)
  : script page_outcome :=
  fun st =>
    match run_simulation odeint kf K time_end st with
    | (Rejected message, st') => (Shown_error message, st')
    | (Failed e, st') => (Raised (FromSimulation e), st')
    | (Solved tr, st') =>
        match plot_species (species_names st') 0 selected_species
                (times tr) (concentrations tr) [] with
        | inl e => (Raised e, st')
        | inr drawn =>
            match custom_font with
            | None => (Raised (NameError "custom_font"), st')
            | Some f =>
                (Shown_plot {| lines := drawn;
                               title := "物種濃度隨時間變化";
                               xlabel := "時間 (秒)";
                               ylabel := "濃度 (mol/L)";
                               text_font := f;
                               legend := true;
                               grid := true |},
                 st')
            end
        end
    end.

(** Line 71: the options of the multiselect, which are also its default. *)
Definition species_options (st : session_state) : list string :=
  map name (reactants st) ++ map name (products st).

(** ** Sample inputs *)

Definition ten : float := of_Z 10.
Definition huge : float := of_Z (10 ^ 308).
Definition large : float := of_Z (10 ^ 200).

(** Lines 22-25: the session starts with no species. *)
Definition fresh_session : session_state := {| reactants := []; products := [] |}.

Definition A_B : session_state :=
  {| reactants := [{| name := "A"; initial := one |}];
     products := [{| name := "B"; initial := zero |}] |}.

Definition no_reactants : session_state :=
  {| reactants := [];
     products := [{| name := "B"; initial := zero |}] |}.

Definition B_A : session_state :=
  {| reactants := [{| name := "B"; initial := zero |}];
     products := [{| name := "A"; initial := one |}] |}.

Definition AB_C : session_state :=
  {| reactants := [{| name := "A"; initial := large |};
                   {| name := "B"; initial := large |}];
     products := [{| name := "C"; initial := zero |}] |}.




(** The trajectory of [A_B] over ten time units, by the reference
    integrator. *)
Definition A_B_trajectory : trajectory :=
  match fst (run_simulation odeint_euler one one ten A_B) with
  | Solved tr => tr
  | _ => {| times := []; concentrations := [] |}
  end.


(** * Facts about binary64 arithmetic *)

Section Float_facts.

(** Cases on the special values: split on every sign and compute. *)
Ltac by_signs :=
  repeat match goal with b : bool |- _ => destruct b end;
  simpl;
  first [ reflexivity | left; reflexivity | right; split; reflexivity ].

Lemma opp_involutive (x : float) : (- (- x))%f64 = x.
Proof. destruct x as [s | s | | s m e]; simpl; try rewrite negb_involutive; reflexivity. Qed.

(** Rounding is symmetric: the sign only labels the result. *)
Lemma binary_round_aux_opp (s : bool) (m e : Z) (l : location) :
  SFopp (binary_round_aux prec emax s m e l) = binary_round_aux prec emax (negb s) m e l.
Proof.
  unfold binary_round_aux.
  destruct (shr_fexp prec emax m e l) as [mrs' e'].
  destruct (shr_fexp prec emax _ e' loc_Exact) as [mrs'' e''].
  destruct (shr_m mrs''); simpl; try reflexivity.
  destruct (Z.leb e'' _); reflexivity.
Qed.

Lemma binary_round_opp (s : bool) (m : positive) (e : Z) :
  SFopp (binary_round prec emax s m e) = binary_round prec emax (negb s) m e.
Proof.
  unfold binary_round.
  destruct (shl_align m e _) as [mz ez].
  apply binary_round_aux_opp.
Qed.

Lemma binary_normalize_opp (z e : Z) :
  z <> 0%Z ->
  SFopp (binary_normalize prec emax z e false) = binary_normalize prec emax (- z) e false.
Proof.
  destruct z as [| p | p]; simpl; intros Hz.
  - congruence.
  - apply binary_round_opp.
  - apply binary_round_opp.
Qed.

Lemma same_number_refl (x : float) : same_number x x.
Proof. left; reflexivity. Qed.

Lemma same_number_sym (x y : float) : same_number x y -> same_number y x.
Proof. intros [H | [H1 H2]]; [left; congruence | right; split; assumption]. Qed.

(** [-f + r] is [-(f - r)]: the same datum, except that a zero difference
    comes out as [+0.0] on both sides of the negation. *)
Lemma add_opp_sub (f r : float) : same_number (- f + r)%f64 (- (f - r))%f64.
Proof.
  destruct f as [sf | sf | | sf mf ef], r as [sr | sr | | sr mr er];
    [ by_signs .. | ].
  - unfold add, sub, opp, SFadd, SFsub, SFopp. fold SFopp.
    set (ez := Z.min ef er).
    set (a := Zpos (fst (shl_align mf ef ez))).
    set (b := Zpos (fst (shl_align mr er ez))).
    assert (Hneg : (cond_Zopp (negb sf) a + cond_Zopp sr b =
                    - (cond_Zopp sf a - cond_Zopp sr b))%Z)
      by (destruct sf, sr; cbv [cond_Zopp negb]; lia).
    rewrite Hneg.
    destruct (Z.eq_dec (cond_Zopp sf a - cond_Zopp sr b) 0) as [Hz | Hz].
    + rewrite Hz. right; split; reflexivity.
    + left. symmetry. apply binary_normalize_opp. exact Hz.
Qed.

(** A number and its opposite add up to zero, unless they are infinite. *)
Lemma add_opposites (a n : float) :
  same_number a (- n)%f64 -> is_finite n = true -> is_zero (a + n)%f64 = true.
Proof.
  intros [-> | [Ha Hn]] Hfin.
  - destruct n as [s | s | | s m e]; try discriminate.
    + destruct s; reflexivity.
    + unfold add, opp, SFadd, SFopp.
      set (c := Zpos (fst (shl_align m e (Z.min e e)))).
      replace (cond_Zopp (negb s) c + cond_Zopp s c)%Z with 0%Z
        by (destruct s; cbv [cond_Zopp negb]; lia).
      reflexivity.
  - destruct a as [sa | | |], n as [sn | | |]; try discriminate.
    destruct sa, sn; reflexivity.
Qed.

(** Python's [x == y] on finite numbers: two zeros, or the same datum. *)
Lemma eqb_finite_cases (x y : float) :
  eqb x y = true -> is_finite x = true ->
  (is_zero x = true /\ is_zero y = true) \/
  (x = y /\ exists s m e, x = S754_finite s m e).
Proof.
  unfold eqb, SFeqb.
  destruct x as [sx | sx | | sx mx ex], y as [sy | sy | | sy my ey];
    simpl; intros Heq Hfin; try discriminate;
    try (left; split; reflexivity);
    try (destruct sy; discriminate);
    try (destruct sx; discriminate).
  right.
  assert (Hcmp : (ex ?= ey)%Z = Eq /\ Pos.compare_cont Eq mx my = Eq /\ sx = sy).
  { destruct sx, sy; try discriminate;
      destruct (ex ?= ey)%Z; try discriminate;
      destruct (Pos.compare_cont Eq mx my); try discriminate;
      repeat split. }
  destruct Hcmp as (He & Hm & Hs).
  apply Z.compare_eq in He. apply Pos.compare_eq in Hm. subst.
  split; [reflexivity | eauto].
Qed.

Lemma sub_equal_finite (x y : float) :
  eqb x y = true -> is_finite x = true ->
  is_zero (x - y)%f64 = true /\ is_zero (- x + y)%f64 = true.
Proof.
  intros Heq Hfin.
  destruct (eqb_finite_cases x y Heq Hfin) as [[Hx Hy] | [<- (s & m & e & ->)]].
  - destruct x as [sx | | |], y as [sy | | |]; try discriminate.
    destruct sx, sy; split; reflexivity.
  - split.
    + unfold sub, SFsub.
      set (c := cond_Zopp s (Zpos (fst (shl_align m e (Z.min e e))))).
      rewrite Z.sub_diag. reflexivity.
    + apply add_opposites; [apply same_number_refl | reflexivity].
Qed.

Lemma at_least_one_positive (x : float) : leb one x = true -> ltb zero x = true.
Proof.
  change one with (S754_finite false 4503599627370496 (-52)).
  destruct x as [s | s | | s m e]; try destruct s; simpl; intros H;
    try discriminate; reflexivity.
Qed.

Lemma positive_nonzero (K : float) : ltb zero K = true -> eqb K zero = false.
Proof. destruct K as [s | s | | s m e]; try destruct s; simpl; intros H; try discriminate; reflexivity. Qed.


Lemma mul_zero_finite (a b : float) :
  is_zero a = true -> is_finite b = true -> is_zero (a * b)%f64 = true.
Proof.
  destruct a as [s | | |]; try discriminate.
  destruct b as [sb | sb | | sb m e]; simpl; intros _ H; try discriminate; reflexivity.
Qed.


End Float_facts.

(** * Finite results of rounding and division *)

Section Finite_results.

Local Open Scope Z_scope.

(** The number of binary digits of a mantissa brackets it between two powers
    of two. *)
Lemma digits2_bounds (p : positive) :
  2 ^ (Zpos (digits2_pos p) - 1) <= Zpos p < 2 ^ Zpos (digits2_pos p).
Proof.
  induction p as [p IH | p IH |]; simpl digits2_pos.
  - rewrite Pos2Z.inj_succ, (Pos2Z.inj_xI p).
    replace (Z.succ (Zpos (digits2_pos p)) - 1) with (Z.succ (Zpos (digits2_pos p) - 1)) by lia.
    rewrite !Z.pow_succ_r by lia.
    revert IH. generalize (2 ^ (Z.pos (digits2_pos p) - 1)) (2 ^ Z.pos (digits2_pos p)). lia.
  - rewrite Pos2Z.inj_succ, (Pos2Z.inj_xO p).
    replace (Z.succ (Zpos (digits2_pos p)) - 1) with (Z.succ (Zpos (digits2_pos p) - 1)) by lia.
    rewrite !Z.pow_succ_r by lia.
    revert IH. generalize (2 ^ (Z.pos (digits2_pos p) - 1)) (2 ^ Z.pos (digits2_pos p)). lia.
  - simpl. lia.
Qed.

Lemma Zdigits2_nonneg (m : Z) : 0 <= Zdigits2 m.
Proof. destruct m; simpl; lia. Qed.

(** A non-negative number below [2 ^ k] has at most [k] binary digits. *)
Lemma Zdigits2_le (m k : Z) : 0 <= m -> 0 <= k -> m < 2 ^ k -> Zdigits2 m <= k.
Proof.
  intros Hm Hk Hlt. destruct m as [| p | p]; simpl; try lia.
  destruct (digits2_bounds p) as [Hlo _].
  destruct (Z_le_gt_dec (Zpos (digits2_pos p)) k) as [Hle | Hgt]; [exact Hle |].
  exfalso.
  assert (2 ^ k <= 2 ^ (Zpos (digits2_pos p) - 1)) by (apply Z.pow_le_mono_r; lia).
  lia.
Qed.

Lemma Zdigits2_lt_pow (m : Z) : 0 <= m -> m < 2 ^ Zdigits2 m.
Proof.
  intros Hm. destruct m as [| p | p]; simpl; try lia.
  apply digits2_bounds.
Qed.

Lemma Zdigits2_ge_pow (m : Z) : 0 < m -> 2 ^ (Zdigits2 m - 1) <= m.
Proof.
  intros Hm. destruct m as [| p | p]; simpl; try lia.
  apply digits2_bounds.
Qed.

Lemma pow2_pos (k : Z) : 0 <= k -> 0 < 2 ^ k.
Proof. intros Hk. apply Z.pow_pos_nonneg; lia. Qed.

(** Halving a mantissa, once and [p] times over. *)
Lemma shr_1_bounds (mrs : shr_record) :
  0 <= shr_m mrs ->
  0 <= shr_m (shr_1 mrs) /\
  2 * shr_m (shr_1 mrs) <= shr_m mrs < 2 * (shr_m (shr_1 mrs) + 1).
Proof.
  destruct mrs as [m r s]. destruct m as [| p | p]; [| destruct p |]; simpl; lia.
Qed.

Lemma iter_shr_1_bounds (p : positive) :
  forall mrs : shr_record,
    0 <= shr_m mrs ->
    0 <= shr_m (iter_pos shr_1 p mrs) /\
    2 ^ Zpos p * shr_m (iter_pos shr_1 p mrs) <= shr_m mrs
      < 2 ^ Zpos p * (shr_m (iter_pos shr_1 p mrs) + 1).
Proof.
  induction p as [p IH | p IH |]; intros mrs Hm; simpl iter_pos.
  - destruct (shr_1_bounds mrs Hm) as [H1 H1'].
    set (X := shr_1 mrs) in *.
    destruct (IH _ H1) as [H2 H2'].
    destruct (IH _ H2) as [H3 H3'].
    split; [exact H3 |].
    rewrite (Pos2Z.inj_xI p), Z.pow_add_r, Z.pow_mul_r, Z.pow_1_r by lia.
    assert (Hpow : 0 < 2 ^ Zpos p) by (apply pow2_pos; lia).
    replace ((2 ^ 2) ^ Zpos p) with (2 ^ Zpos p * 2 ^ Zpos p)
      by (rewrite <- Z.pow_mul_l; reflexivity).
    set (A := 2 ^ Zpos p) in *.
    set (m2 := shr_m (iter_pos shr_1 p X)) in *.
    set (m3 := shr_m (iter_pos shr_1 p (iter_pos shr_1 p X))) in *.
    assert (A * (A * m3) <= A * m2) by (apply Z.mul_le_mono_nonneg_l; lia).
    assert (A * (m2 + 1) <= A * (A * (m3 + 1))) by (apply Z.mul_le_mono_nonneg_l; lia).
    lia.
  - set (X := mrs) in *.
    destruct (IH _ Hm) as [H2 H2'].
    destruct (IH _ H2) as [H3 H3'].
    split; [exact H3 |].
    rewrite (Pos2Z.inj_xO p), Z.pow_mul_r by lia.
    assert (Hpow : 0 < 2 ^ Zpos p) by (apply pow2_pos; lia).
    replace ((2 ^ 2) ^ Zpos p) with (2 ^ Zpos p * 2 ^ Zpos p)
      by (rewrite <- Z.pow_mul_l; reflexivity).
    set (A := 2 ^ Zpos p) in *.
    set (m2 := shr_m (iter_pos shr_1 p X)) in *.
    set (m3 := shr_m (iter_pos shr_1 p (iter_pos shr_1 p X))) in *.
    assert (A * (A * m3) <= A * m2) by (apply Z.mul_le_mono_nonneg_l; lia).
    assert (A * (m2 + 1) <= A * (A * (m3 + 1))) by (apply Z.mul_le_mono_nonneg_l; lia).
    lia.
  - destruct (shr_1_bounds mrs Hm) as [H1 H1']. split; [exact H1 |].
    change (2 ^ 1) with 2. exact H1'.
Qed.

Lemma shr_record_of_loc_m (m : Z) (l : location) : shr_m (shr_record_of_loc m l) = m.
Proof. destruct l as [| []]; reflexivity. Qed.

(** One normalisation step: the mantissa stays non-negative, the exponent
    becomes the larger of the given one and the canonical one, and the
    magnitude [digits + exponent] does not grow. *)
Lemma shr_fexp_bound (m e : Z) (l : location) :
  0 <= m ->
  0 <= shr_m (fst (shr_fexp prec emax m e l)) /\
  snd (shr_fexp prec emax m e l) = Z.max e (fexp prec emax (Zdigits2 m + e)) /\
  Zdigits2 (shr_m (fst (shr_fexp prec emax m e l))) + snd (shr_fexp prec emax m e l)
    <= Z.max (Zdigits2 m + e) (snd (shr_fexp prec emax m e l)).
Proof.
  intros Hm. unfold shr_fexp, shr.
  set (d := Zdigits2 m).
  destruct (fexp prec emax (d + e) - e) as [| n | n] eqn:Hn; simpl fst; simpl snd.
  - rewrite shr_record_of_loc_m. fold d. lia.
  - pose proof (iter_shr_1_bounds n (shr_record_of_loc m l)) as Hit.
    rewrite shr_record_of_loc_m in Hit. destruct (Hit Hm) as [H0 [Hle _]].
    set (m' := shr_m (iter_pos shr_1 n (shr_record_of_loc m l))) in *.
    split; [exact H0 |]. split; [lia |].
    destruct (Z.eq_dec m' 0) as [-> | Hnz]; [simpl; lia |].
    assert (Hlt : m < 2 ^ d) by (apply Zdigits2_lt_pow; exact Hm).
    assert (Hpow : 0 < 2 ^ Zpos n) by (apply Z.pow_pos_nonneg; lia).
    destruct (Z_lt_le_dec d (Zpos n)) as [Hsmall | Hbig].
    + exfalso.
      assert (2 ^ d <= 2 ^ Zpos n) by (apply Z.pow_le_mono_r; lia).
      assert (2 ^ Zpos n * 1 <= 2 ^ Zpos n * m') by (apply Z.mul_le_mono_nonneg_l; lia).
      lia.
    + assert (Hdig : Zdigits2 m' <= d - Zpos n).
      { apply Zdigits2_le; [lia | lia |].
        assert (Hsplit : 2 ^ d = 2 ^ Zpos n * 2 ^ (d - Zpos n))
          by (rewrite <- Z.pow_add_r by lia; f_equal; lia).
        apply (Z.mul_lt_mono_pos_l (2 ^ Zpos n)); [exact Hpow | lia]. }
      lia.
  - rewrite shr_record_of_loc_m. fold d. lia.
Qed.

Lemma round_nearest_even_bound (m : Z) (l : location) :
  0 <= m ->
  0 <= round_nearest_even m l /\
  Zdigits2 (round_nearest_even m l) <= Zdigits2 m + 1.
Proof.
  intros Hm.
  assert (Hr : m <= round_nearest_even m l <= m + 1)
    by (destruct l as [| []]; simpl; try destruct (Z.even m); lia).
  split; [lia |].
  apply Zdigits2_le; [lia | pose proof (Zdigits2_nonneg m); lia |].
  pose proof (Zdigits2_lt_pow m Hm) as Hlt.
  rewrite Z.pow_add_r by (pose proof (Zdigits2_nonneg m); lia).
  change (2 ^ 1) with 2. lia.
Qed.

(** Rounding a non-negative mantissa that is not too large gives a zero or a
    finite number: neither an infinity nor NaN. *)
Lemma binary_round_aux_finite (s : bool) (m e : Z) (l : location) :
  0 <= m -> Zdigits2 m + e <= 1023 -> e <= 970 ->
  is_finite (binary_round_aux prec emax s m e l) = true.
Proof.
  intros Hm Hmag He. unfold binary_round_aux.
  destruct (shr_fexp_bound m e l Hm) as (H1 & H1e & H1d).
  destruct (shr_fexp prec emax m e l) as [mrs' e']. simpl fst in *; simpl snd in *.
  destruct (round_nearest_even_bound (shr_m mrs') (loc_of_shr_record mrs') H1) as [H2 H2d].
  set (mr := round_nearest_even (shr_m mrs') (loc_of_shr_record mrs')) in *.
  destruct (shr_fexp_bound mr e' loc_Exact H2) as (H3 & H3e & H3d).
  destruct (shr_fexp prec emax mr e' loc_Exact) as [mrs'' e'']. simpl fst in *; simpl snd in *.
  destruct (shr_m mrs'') as [| p | p]; [reflexivity | | lia].
  assert (Hle : e'' <= emax - prec).
  { subst e'' e'. unfold fexp, emin, emax, prec in *. lia. }
  apply Z.leb_le in Hle. rewrite Hle. reflexivity.
Qed.

(** Dividing a finite number by a finite number of magnitude at least 2
    gives a finite number. *)
Lemma div_finite (x : float) (sy : bool) (my : positive) (ey : Z) :
  well_formed x = true -> is_finite x = true ->
  2 <= Zdigits2 (Zpos my) + ey ->
  is_finite (x / S754_finite sy my ey)%f64 = true.
Proof.
  intros Hwf Hfin Hy.
  destruct x as [sx | sx | | sx mx ex]; try discriminate; [reflexivity |].
  unfold well_formed, valid_binary, bounded, canonical_mantissa in Hwf.
  apply andb_true_iff in Hwf. destruct Hwf as [Hcan Hex].
  apply Z.eqb_eq in Hcan. apply Z.leb_le in Hex.
  unfold div, SFdiv, SFdiv_core_binary.
  set (d1 := Zdigits2 (Zpos mx)). set (d2 := Zdigits2 (Zpos my)).
  change (Zpos (digits2_pos mx)) with d1 in Hcan. fold d2 in Hy.
  set (e' := Z.min (fexp prec emax (d1 + ex - (d2 + ey))) (ex - ey)).
  set (sh := ex - ey - e').
  set (m' := match sh with Zpos _ => Z.shiftl (Zpos mx) sh | 0 => Zpos mx | Zneg _ => 0 end).
  assert (Hsh : 0 <= sh) by (unfold sh, e'; lia).
  assert (Hm' : m' = Zpos mx * 2 ^ sh).
  { unfold m'. destruct sh as [| p | p]; [simpl; lia | | lia].
    apply Z.shiftl_mul_pow2. lia. }
  assert (Hpow : 0 < 2 ^ sh) by (apply Z.pow_pos_nonneg; lia).
  assert (Hm'0 : 0 <= m') by (rewrite Hm'; lia).
  pose proof (Z.div_pos m' (Zpos my) Hm'0 ltac:(lia)) as Hq0.
  pose proof (Z.mul_div_le m' (Zpos my) ltac:(lia)) as Hqle.
  unfold Z.div in Hq0, Hqle.
  destruct (Z.div_eucl m' (Zpos my)) as [q r]. simpl fst in *.
  assert (Hmx : Zpos mx < 2 ^ d1) by (apply Zdigits2_lt_pow; lia).
  assert (Hmy : 2 ^ (d2 - 1) <= Zpos my) by (apply Zdigits2_ge_pow; lia).
  assert (Hd1 : 1 <= d1) by (unfold d1; simpl; lia).
  assert (Hd2 : 1 <= d2) by (unfold d2; simpl; lia).
  assert (Hmag : d1 + ex <= 1024)
    by (unfold fexp, emin, emax, prec in Hcan, Hex; lia).
  assert (He' : e' <= 969)
    by (unfold e', fexp, emin, emax, prec; lia).
  assert (Hlt : m' < 2 ^ (d1 + sh)).
  { rewrite Hm', Z.pow_add_r by lia. apply Z.mul_lt_mono_pos_r; assumption. }
  assert (Hpow2 : 0 < 2 ^ (d2 - 1)) by (apply Z.pow_pos_nonneg; lia).
  assert (Hq : 2 ^ (d2 - 1) * q < 2 ^ (d1 + sh)).
  { assert (2 ^ (d2 - 1) * q <= Zpos my * q) by (apply Z.mul_le_mono_nonneg_r; lia).
    lia. }
  apply binary_round_aux_finite; [exact Hq0 | | lia].
  destruct (Z.eq_dec q 0) as [-> | Hnz]; [simpl; lia |].
  destruct (Z_lt_le_dec (d1 + sh) (d2 - 1)) as [Hsmall | Hbig].
  - exfalso.
    assert (2 ^ (d1 + sh) <= 2 ^ (d2 - 1)) by (apply Z.pow_le_mono_r; lia).
    assert (2 ^ (d2 - 1) * 1 <= 2 ^ (d2 - 1) * q) by (apply Z.mul_le_mono_nonneg_l; lia).
    lia.
  - assert (Hdig : Zdigits2 q <= d1 + sh - (d2 - 1)).
    { apply Zdigits2_le; [lia | lia |].
      assert (Hsplit : 2 ^ (d1 + sh) = 2 ^ (d2 - 1) * 2 ^ (d1 + sh - (d2 - 1)))
        by (rewrite <- Z.pow_add_r by lia; f_equal; lia).
      apply (Z.mul_lt_mono_pos_l (2 ^ (d2 - 1))); [exact Hpow2 | lia]. }
    unfold sh in Hdig. lia.
Qed.

End Finite_results.

(** * The rate function *)

Section Rate_function.

Lemma append_times_repeat (n : nat) (v : float) (dCdt : list float) :
  append_times n v dCdt = dCdt ++ repeat v n.
Proof.
  revert dCdt; induction n as [| n IH]; intros dCdt; simpl.
  - now rewrite app_nil_r.
  - rewrite IH, <- app_assoc. reflexivity.
Qed.

(** The value of [reaction_rate] when the division succeeds. *)
Lemma reaction_rate_value (st : session_state) (C : list float) (t kf K : float) :
  eqb K zero = false ->
  let n := length (reactants st) in
  reaction_rate C t kf K st =
    (Ok (repeat (- forward_rate n C kf + reverse_rate n C kf K)%f64 n ++
         repeat (net_rate n C kf K) (length (products st))),
     st).
Proof.
  intros HK n. unfold reaction_rate, py_truediv. rewrite HK. simpl.
  rewrite !append_times_repeat. reflexivity.
Qed.

Lemma reaction_rate_zero_divisor (st : session_state) (C : list float) (t kf K : float) :
  eqb K zero = true ->
  reaction_rate C t kf K st = (Raise ZeroDivisionError, st).
Proof. intros HK. unfold reaction_rate, py_truediv. rewrite HK. reflexivity. Qed.

Lemma Forall_repeat (P : float -> Prop) (v : float) (n : nat) :
  P v -> Forall P (repeat v n).
Proof. intros Hv. induction n; simpl; constructor; assumption. Qed.

(** C1. With a positive equilibrium constant and a concentration vector that
    has one entry per species, the rate function returns a vector of the same
    length; its product entries hold [net = forward_rate - reverse_rate], where
    [forward_rate = kf * prod(reactant entries)], [reverse_rate = (kf / K) *
    prod(product entries)], and its reactant entries hold the number [- net].
    (The property holds for every [kf], not only the non-negative ones.) *)
Theorem reaction_rate_mass_action
    (st : session_state) (C : list float) (t kf K : float) :
  length C = (length (reactants st) + length (products st))%nat ->
  ltb zero K = true ->
  exists dCdt,
    fst (reaction_rate C t kf K st) = Ok dCdt /\
    length dCdt = length C /\
    (forall i, (i < length (reactants st))%nat ->
       exists d, nth_error dCdt i = Some d /\
                 same_number d (- net_rate (length (reactants st)) C kf K)%f64) /\
    (forall i, (length (reactants st) <= i < length (reactants st) + length (products st))%nat ->
       nth_error dCdt i = Some (net_rate (length (reactants st)) C kf K)).
Proof.
  intros Hlen HK.
  rewrite (reaction_rate_value st C t kf K (positive_nonzero K HK)).
  eexists; split; [reflexivity |].
  split; [| split].
  - rewrite length_app, !repeat_length. symmetry; exact Hlen.
  - intros i Hi. eexists; split.
    + rewrite nth_error_app1 by (rewrite repeat_length; exact Hi).
      apply nth_error_repeat; exact Hi.
    + apply add_opp_sub.
  - intros i [Hlo Hhi].
    rewrite nth_error_app2 by (rewrite repeat_length; exact Hlo).
    rewrite repeat_length. apply nth_error_repeat. lia.
Qed.

Lemma reaction_rate_mass_action_witness :
  exists dCdt,
    fst (reaction_rate [one; zero] zero one one A_B) = Ok dCdt /\
    length dCdt = 2%nat /\
    (forall i, (i < 1)%nat ->
       exists d, nth_error dCdt i = Some d /\
                 same_number d (- net_rate 1 [one; zero] one one)%f64) /\
    (forall i, (1 <= i < 2)%nat -> nth_error dCdt i = Some (net_rate 1 [one; zero] one one)).
Proof.
  apply (reaction_rate_mass_action A_B [one; zero] zero one one); reflexivity.
Defined.



(** C6, as the code has it.  Where the forward rate equals the reverse rate
    and is finite, every entry of the derivative is a zero. *)
Theorem equilibrium_derivative_zero
    (st : session_state) (C : list float) (t kf K : float) :
  ltb zero K = true ->
  eqb (forward_rate (length (reactants st)) C kf)
      (reverse_rate (length (reactants st)) C kf K) = true ->
  is_finite (forward_rate (length (reactants st)) C kf) = true ->
  exists dCdt,
    fst (reaction_rate C t kf K st) = Ok dCdt /\
    Forall (fun d => is_zero d = true) dCdt.
Proof.
  intros HK Heq Hfin.
  rewrite (reaction_rate_value st C t kf K (positive_nonzero K HK)).
  eexists; split; [reflexivity |].
  destruct (sub_equal_finite _ _ Heq Hfin) as [Hsub Hadd].
  apply Forall_app; split; apply Forall_repeat; assumption.
Qed.

Lemma equilibrium_derivative_zero_witness :
  exists dCdt,
    fst (reaction_rate [one; one] zero one one A_B) = Ok dCdt /\
    Forall (fun d => is_zero d = true) dCdt.
Proof.
  apply (equilibrium_derivative_zero A_B [one; one] zero one one); reflexivity.
Defined.

(** C6 fails when both rates have overflowed: with concentrations
    [1e308, 1e308], [kf = 10] and [K = 1] both rates are [+inf], Python's
    [==] holds between them, and every entry of the derivative is NaN. *)
Lemma equilibrium_derivative_overflow :
  well_formed huge = true /\ leb zero ten = true /\ ltb zero one = true /\
  forward_rate 1 [huge; huge] ten = infinity /\
  reverse_rate 1 [huge; huge] ten one = infinity /\
  eqb (forward_rate 1 [huge; huge] ten) (reverse_rate 1 [huge; huge] ten one) = true /\
  fst (reaction_rate [huge; huge] zero ten one A_B) = Ok [nan; nan] /\
  is_zero nan = false.
Proof. vm_compute. repeat split. Qed.



(** C9, as the code has it.  The rate function leaves the session state as
    it found it, and its result is determined by [C], [kf], [K] and the two
    species counts it reads from the session state: states with the same
    numbers of reactants and of products give the same result. *)
Theorem reaction_rate_reads_species_counts
    (st1 st2 : session_state) (C : list float) (t kf K : float) :
  length (reactants st1) = length (reactants st2) ->
  length (products st1) = length (products st2) ->
  fst (reaction_rate C t kf K st1) = fst (reaction_rate C t kf K st2) /\
  snd (reaction_rate C t kf K st1) = st1.
Proof.
  intros Hr Hp. unfold reaction_rate. simpl. rewrite Hr, Hp. split; reflexivity.
Qed.

Lemma reaction_rate_reads_species_counts_witness :
  fst (reaction_rate [one; one] zero one one A_B) =
    fst (reaction_rate [one; one] zero one one B_A) /\
  snd (reaction_rate [one; one] zero one one A_B) = A_B.
Proof.
  apply (reaction_rate_reads_species_counts A_B B_A [one; one] zero one one); reflexivity.
Defined.

(** C9 fails as stated: the same explicit arguments give different vectors
    before and after a reactant is added to the session state. *)
Lemma reaction_rate_depends_on_session :
  fst (reaction_rate [one; one] zero one one A_B) = Ok [zero; zero] /\
  fst (reaction_rate [one; one] zero one one (snd (add_reactant "C" one A_B))) =
    Ok [zero; zero; zero].
Proof. split; vm_compute; reflexivity. Qed.

(** C10. The time argument has no influence on the rate function: at every
    state, concentration vector, [kf] and [K], two calls that differ only in
    the time return the same result (and leave the same session state). *)
Theorem reaction_rate_autonomous
    (st : session_state) (C : list float) (t1 t2 kf K : float) :
  reaction_rate C t1 kf K st = reaction_rate C t2 kf K st.
Proof. reflexivity. Qed.

(** X1. With a zero equilibrium constant, of either sign, every call of the rate
    function raises [ZeroDivisionError], whatever the concentrations, the
    time, [kf] and the session state, which it leaves untouched. *)
Theorem reaction_rate_zero_K_raises
    (st : session_state) (C : list float) (t kf K : float) :
  eqb K zero = true ->
  reaction_rate C t kf K st = (Raise ZeroDivisionError, st).
Proof. intros HK. unfold reaction_rate, py_truediv. rewrite HK. reflexivity. Qed.

Lemma reaction_rate_zero_K_raises_witness :
  reaction_rate [one; zero] zero one (opp zero) A_B = (Raise ZeroDivisionError, A_B).
Proof.
  apply (reaction_rate_zero_K_raises A_B [one; zero] zero one (opp zero)). reflexivity.
Defined.

(** X2. The derivative has one entry per species of the session state, whatever
    the length of the concentration vector handed in. *)
Theorem reaction_rate_length
    (st : session_state) (C dCdt : list float) (t kf K : float) :
  fst (reaction_rate C t kf K st) = Ok dCdt ->
  length dCdt = (length (reactants st) + length (products st))%nat.
Proof.
  unfold reaction_rate, py_truediv. destruct (eqb K zero); simpl; [discriminate |].
  intros H; inversion H; subst.
  rewrite !append_times_repeat. simpl.
  now rewrite length_app, !repeat_length.
Qed.

Lemma reaction_rate_length_witness :
  fst (reaction_rate [one] zero one one A_B) = Ok [zero; zero] /\
  length [zero; zero] = (length (reactants A_B) + length (products A_B))%nat.
Proof.
  split; [reflexivity |].
  apply (reaction_rate_length A_B [one] [zero; zero] zero one one). reflexivity.
Defined.

End Rate_function.

(** * The sample times *)

Section Sample_times.

Lemma linspace_samples (start stop : float) (num : nat) :
  linspace start stop num =
    let y := map (linspace_sample start stop num) (seq 0 num) in
    if (1 <? num)%nat then removelast y ++ [stop] else y.
Proof.
  unfold linspace, linspace_sample, linspace_step.
  destruct (0 <? num - 1)%nat.
  - destruct (eqb _ zero); cbv zeta; rewrite !map_map; reflexivity.
  - cbv zeta; rewrite !map_map; reflexivity.
Qed.

(** With at least two samples the grid is the computed samples but the last,
    followed by [stop] itself. *)
Lemma linspace_pinned (start stop : float) (num : nat) :
  (1 < num)%nat ->
  linspace start stop num =
    map (linspace_sample start stop num) (seq 0 (num - 1)) ++ [stop].
Proof.
  intros Hnum. rewrite linspace_samples. cbv zeta.
  destruct (Nat.ltb_spec 1 num) as [_ | Hle]; [| lia].
  replace num with (S (num - 1)) at 2 by lia.
  rewrite seq_S, map_app. simpl map at 2.
  rewrite removelast_last. reflexivity.
Qed.

Lemma linspace_length (start stop : float) (num : nat) :
  length (linspace start stop num) = num.
Proof.
  destruct (Nat.ltb_spec 1 num) as [Hlt | Hle].
  - rewrite linspace_pinned by exact Hlt.
    rewrite length_app, length_map, length_seq. simpl. lia.
  - rewrite linspace_samples. cbv zeta.
    destruct (Nat.ltb_spec 1 num) as [Hlt | _]; [lia |].
    now rewrite length_map, length_seq.
Qed.

Lemma linspace_last (start stop d : float) (num : nat) :
  (1 < num)%nat -> last (linspace start stop num) d = stop.
Proof. intros Hnum. rewrite linspace_pinned by exact Hnum. apply last_last. Qed.

Lemma linspace_nth_error (start stop : float) (num i : nat) :
  (i < num - 1)%nat ->
  nth_error (linspace start stop num) i = Some (linspace_sample start stop num i).
Proof.
  intros Hi. rewrite linspace_pinned by lia.
  rewrite nth_error_app1 by (rewrite length_map, length_seq; exact Hi).
  rewrite nth_error_map, nth_error_seq.
  destruct (Nat.ltb_spec i (num - 1)) as [_ | Hge]; [reflexivity | lia].
Qed.

(** Away from the underflow branch the samples are multiples of one step. *)
Lemma linspace_sample_regular (start stop : float) (num i : nat) :
  (1 < num)%nat ->
  eqb (linspace_step start stop num) zero = false ->
  linspace_sample start stop num i =
    (of_nat i * linspace_step start stop num + start)%f64.
Proof.
  intros Hnum Hstep. unfold linspace_sample.
  destruct (Nat.ltb_spec 0 (num - 1)) as [_ | Hle]; [| lia].
  rewrite Hstep. reflexivity.
Qed.

Lemma sub_zero_r (x : float) : (x - zero)%f64 = x.
Proof. destruct x as [s | s | | s m e]; try destruct s; reflexivity. Qed.

(** The first computed sample of a grid that starts at zero is a zero, or NaN
    when the step is not finite. *)
Lemma first_sample_from_zero (stop : float) (num : nat) :
  let t0 := linspace_sample zero stop num 0 in
  t0 = zero \/ t0 = nan.
Proof.
  unfold linspace_sample. rewrite sub_zero_r.
  change (of_nat 0) with zero.
  assert (Hmul : forall s x, (S754_zero s * x + zero)%f64 = zero \/
                             (S754_zero s * x + zero)%f64 = nan).
  { intros s x. destruct s, x as [s | s | | s m e]; try destruct s; simpl; auto. }
  destruct (0 <? num - 1)%nat; [| apply Hmul].
  destruct (eqb _ zero); [| apply Hmul].
  destruct (of_nat (num - 1)) as [s | s | | s m e];
    first [apply Hmul | right; reflexivity].
Qed.

Lemma first_sample_finite_step (stop : float) (num : nat) :
  (1 < num)%nat ->
  is_finite (linspace_step zero stop num) = true ->
  linspace_sample zero stop num 0 = zero.
Proof.
  intros Hnum Hfin. unfold linspace_sample.
  destruct (Nat.ltb_spec 0 (num - 1)) as [_ | Hle]; [| lia].
  change (of_nat 0) with zero.
  destruct (eqb (linspace_step zero stop num) zero) eqn:Hz.
  - unfold linspace_step in *. rewrite sub_zero_r in *.
    destruct stop as [s | s | | s m e], (of_nat (num - 1)) as [s' | s' | | s' m' e'];
      try destruct s; try destruct s'; try discriminate; reflexivity.
  - destruct (linspace_step zero stop num) as [s | s | | s m e];
      try destruct s; try discriminate; reflexivity.
Qed.

Lemma positive_differs_from_start (stop t0 : float) :
  ltb zero stop = true -> t0 = zero \/ t0 = nan -> eqb stop t0 = false.
Proof.
  intros Hpos [-> | ->].
  - apply positive_nonzero; exact Hpos.
  - destruct stop as [s | s | | s m e]; reflexivity.
Qed.

(** A positive duration makes the integrator leave its starting point. *)
Lemma linspace_advances (stop : float) (num : nat) :
  (1 < num)%nat -> ltb zero stop = true -> advances (linspace zero stop num) = true.
Proof.
  intros Hnum Hpos. rewrite linspace_pinned by exact Hnum.
  replace (num - 1)%nat with (S (num - 2)) by lia.
  simpl seq. simpl map. simpl app. unfold advances.
  rewrite existsb_app. apply orb_true_iff. right. simpl.
  rewrite orb_false_r.
  replace (S (num - 2)) with (num - 1)%nat by lia.
  rewrite (positive_differs_from_start stop _ Hpos (first_sample_from_zero stop num)).
  reflexivity.
Qed.

(** The spacing of the sample times is finite for every finite duration. *)
Lemma linspace_step_finite (time_end : float) :
  well_formed time_end = true -> is_finite time_end = true ->
  is_finite (linspace_step zero time_end num_samples) = true.
Proof.
  intros Hwf Hfin. unfold linspace_step. rewrite sub_zero_r.
  change (of_nat (num_samples - 1)) with (S754_finite false 8787296929185792 (-43)).
  apply div_finite; [assumption | assumption | simpl; lia].
Qed.

End Sample_times.

(** * The order of the sample times *)

Section Values.

Local Open Scope Z_scope.

(** Values are compared as integers, in units of [2 ^ base]: [base] is any
    exponent below the ones at hand. *)
Variable base : Z.

Lemma scaled_shift (m e n : Z) :
  base <= e -> 0 <= n -> scaled base m (e + n) = m * 2 ^ n * 2 ^ (e - base).
Proof.
  intros He Hn. unfold scaled.
  replace (e + n - base) with (n + (e - base)) by lia.
  rewrite Z.pow_add_r by lia. ring.
Qed.

(** One normalisation step, with the value it keeps: the shifted mantissa is
    the given value rounded down to a multiple of the new unit. *)
Lemma shr_fexp_value (m e : Z) (l : location) :
  0 <= m -> base <= e ->
  let m' := shr_m (fst (shr_fexp prec emax m e l)) in
  let e' := snd (shr_fexp prec emax m e l) in
  0 <= m' /\
  e' = Z.max e (fexp prec emax (Zdigits2 m + e)) /\
  scaled base m' e' <= scaled base m e < scaled base (m' + 1) e' /\
  Zdigits2 m' + e' <= Z.max (Zdigits2 m + e) e'.
Proof.
  intros Hm He m' e'.
  destruct (shr_fexp_bound m e l Hm) as (H0 & He' & Hd).
  fold m' e' in H0, He', Hd.
  split; [exact H0 |]. split; [exact He' |]. split; [| exact Hd].
  unfold m', e', shr_fexp, shr in *.
  destruct (fexp prec emax (Zdigits2 m + e) - e) as [| n | n] eqn:Hn; simpl fst; simpl snd.
  - rewrite shr_record_of_loc_m. unfold scaled.
    assert (0 < 2 ^ (e - base)) by (apply pow2_pos; lia). nia.
  - pose proof (iter_shr_1_bounds n (shr_record_of_loc m l)) as Hit.
    rewrite shr_record_of_loc_m in Hit. destruct (Hit Hm) as [_ Hb].
    set (k := shr_m (iter_pos shr_1 n (shr_record_of_loc m l))) in *.
    rewrite !scaled_shift by lia. unfold scaled.
    assert (0 < 2 ^ (e - base)) by (apply pow2_pos; lia).
    split.
    + apply Z.mul_le_mono_nonneg_r; lia.
    + apply Z.mul_lt_mono_pos_r; lia.
  - rewrite shr_record_of_loc_m. unfold scaled.
    assert (0 < 2 ^ (e - base)) by (apply pow2_pos; lia). nia.
Qed.

Lemma regular_weaken (k k' : Z) (x : float) : k' <= k -> regular k x -> regular k' x.
Proof. destruct x as [[] | | | [] m e]; simpl; intros; try assumption; lia. Qed.

Lemma scaled_succ (m e : Z) : scaled base (m + 1) e = scaled base m e + 2 ^ (e - base).
Proof. unfold scaled. ring. Qed.

Lemma scaled_le (a b e : Z) : base <= e -> a <= b -> scaled base a e <= scaled base b e.
Proof.
  intros He Hab. unfold scaled.
  apply Z.mul_le_mono_nonneg_r; [| exact Hab].
  pose proof (pow2_pos (e - base)). lia.
Qed.

Lemma round_nearest_even_range (m : Z) (l : location) :
  m <= round_nearest_even m l <= m + 1.
Proof. destruct l as [| []]; simpl; try destruct (Z.even m); lia. Qed.

(** Rounding a non-negative mantissa that has digits enough and stays below
    the overflow threshold: the result is a regular number within three units
    of the value. *)
Lemma binary_round_aux_value (m e : Z) (l : location) :
  0 <= m -> base <= e ->
  e <= fexp prec emax (Zdigits2 m + e) ->
  scaled base m e + 2 ^ (fexp prec emax (Zdigits2 m + e) - base) < 2 ^ (1024 - base) ->
  regular (fexp prec emax (Zdigits2 m + e)) (binary_round_aux prec emax false m e l) /\
  scaled base m e - 3 * 2 ^ (fexp prec emax (Zdigits2 m + e) - base)
    < fval base (binary_round_aux prec emax false m e l)
    <= scaled base m e + 2 ^ (fexp prec emax (Zdigits2 m + e) - base).
Proof.
  intros Hm He Hdig Hov.
  set (e1 := fexp prec emax (Zdigits2 m + e)) in *.
  unfold binary_round_aux.
  destruct (shr_fexp_value m e l Hm He) as (H1 & H1e & H1v & H1d).
  destruct (shr_fexp prec emax m e l) as [mrs' e']. simpl fst in *; simpl snd in *.
  fold e1 in H1e. rewrite Z.max_r in H1e by exact Hdig. subst e'.
  pose proof (round_nearest_even_range (shr_m mrs') (loc_of_shr_record mrs')) as Hr.
  destruct (round_nearest_even_bound (shr_m mrs') (loc_of_shr_record mrs') H1) as [H2 H2d].
  set (m' := shr_m mrs') in *.
  set (mr := round_nearest_even m' (loc_of_shr_record mrs')) in *.
  assert (Hbase1 : base <= e1) by lia.
  destruct (shr_fexp_value mr e1 loc_Exact H2 Hbase1) as (H3 & H3e & H3v & H3d).
  destruct (shr_fexp prec emax mr e1 loc_Exact) as [mrs'' e'']. simpl fst in *; simpl snd in *.
  set (m'' := shr_m mrs'') in *.
  assert (Hu : 0 < 2 ^ (e1 - base)) by (apply pow2_pos; lia).
  (* the rounded mantissa, in units of the first exponent *)
  assert (Hmr_hi : scaled base mr e1 <= scaled base m e + 2 ^ (e1 - base)).
  { pose proof (scaled_le mr (m' + 1) e1 Hbase1 ltac:(lia)) as Hle.
    rewrite scaled_succ in Hle. lia. }
  assert (Hmr_lo : scaled base m e - 2 ^ (e1 - base) < scaled base mr e1).
  { pose proof (scaled_le m' mr e1 Hbase1 ltac:(lia)) as Hle.
    rewrite scaled_succ in H1v. lia. }
  (* magnitudes *)
  assert (Hfexp_lo : - 1074 <= e1 /\ Zdigits2 m + e - 53 <= e1)
    by (unfold e1, fexp, emin, emax, prec; lia).
  assert (Hmag : Zdigits2 m + e <= 1024).
  { destruct (Z.eq_dec m 0) as [-> | Hnz].
    - simpl in *. unfold e1, fexp, emin, emax, prec in *. simpl in *. lia.
    - destruct (Z_le_gt_dec (Zdigits2 m + e) 1024) as [Hle | Hgt]; [exact Hle |].
      exfalso.
      pose proof (Zdigits2_ge_pow m ltac:(lia)) as Hlo.
      assert (Hp : 0 < 2 ^ (e - base)) by (apply pow2_pos; lia).
      assert (2 ^ (Zdigits2 m - 1) * 2 ^ (e - base) <= scaled base m e)
        by (unfold scaled; apply Z.mul_le_mono_nonneg_r; lia).
      assert (Hd1 : 1 <= Zdigits2 m) by (destruct m; simpl; lia).
      rewrite <- Z.pow_add_r in H by lia.
      assert (2 ^ (1024 - base) <= 2 ^ (Zdigits2 m - 1 + (e - base)))
        by (apply Z.pow_le_mono_r; lia).
      lia. }
  assert (He1_hi : e1 <= 971) by (unfold e1, fexp, emin, emax, prec in *; lia).
  assert (Hmr_dig : Zdigits2 mr + e1 <= 1024).
  { assert (Hlt : mr < 2 ^ (1024 - e1)).
    { apply (Z.mul_lt_mono_pos_r (2 ^ (e1 - base))); [exact Hu |].
      rewrite <- Z.pow_add_r by lia.
      replace (1024 - e1 + (e1 - base)) with (1024 - base) by lia.
      pose proof Hmr_hi as Hx. pose proof Hov as Hy. unfold scaled in Hx, Hy. lia. }
    pose proof (Zdigits2_le mr (1024 - e1) H2 ltac:(lia) Hlt). lia. }
  assert (He''_hi : e'' <= 971 /\ e'' <= e1 + 1 /\ e1 <= e'').
  { unfold fexp, emin, emax, prec in H3e. lia. }
  destruct He''_hi as (Hov'' & Hup & Hdown).
  assert (Hu'' : 2 ^ (e'' - base) <= 2 * 2 ^ (e1 - base)).
  { replace (2 * 2 ^ (e1 - base)) with (2 ^ (e1 + 1 - base))
      by (replace (e1 + 1 - base) with (1 + (e1 - base)) by lia;
          rewrite Z.pow_add_r by lia; reflexivity).
    apply Z.pow_le_mono_r; lia. }
  rewrite scaled_succ in H3v.
  assert (Hval : scaled base m e - 3 * 2 ^ (e1 - base) < scaled base m'' e''
                 <= scaled base m e + 2 ^ (e1 - base)) by lia.
  destruct m'' as [| p | p] eqn:Hm''.
  - unfold regular, fval. split; [exact I |]. change (scaled base 0 e'') with 0 in Hval. lia.
  - assert (Hleb : (e'' <=? emax - prec) = true)
      by (apply Z.leb_le; unfold emax, prec; lia).
    rewrite Hleb. unfold regular, fval. split; [fold e1; lia | exact Hval].
  - lia.
Qed.


Lemma scaled_pos (m : positive) (e : Z) : base <= e -> 0 < scaled base (Zpos m) e.
Proof. intros He. unfold scaled. pose proof (pow2_pos (e - base)). nia. Qed.

Lemma iter_xO_value (m d : positive) : Zpos (Pos.iter xO m d) = Zpos m * 2 ^ Zpos d.
Proof.
  induction d as [| d IH] using Pos.peano_ind.
  - simpl. lia.
  - rewrite Pos.iter_succ, Pos2Z.inj_xO, IH, Pos2Z.inj_succ, Z.pow_succ_r by lia. ring.
Qed.

(** Aligning a mantissa to a smaller exponent keeps the value. *)
Lemma shl_align_value (m : positive) (e ez : Z) :
  base <= ez -> ez <= e ->
  scaled base (Zpos (fst (shl_align m e ez))) ez = scaled base (Zpos m) e.
Proof.
  intros Hb Hle. unfold shl_align.
  destruct (ez - e) as [| d | d] eqn:Hd; simpl fst.
  - replace ez with e by lia. reflexivity.
  - lia.
  - rewrite iter_xO_value. unfold scaled.
    replace (e - base) with (Zpos d + (ez - base)) by lia.
    rewrite Z.pow_add_r by lia. ring.
Qed.

(** Rounding a non-negative mantissa never gives a negative number or NaN. *)
Lemma binary_round_aux_sign (m e : Z) (l : location) :
  0 <= m -> leb zero (binary_round_aux prec emax false m e l) = true.
Proof.
  intros Hm. unfold binary_round_aux.
  destruct (shr_fexp_bound m e l Hm) as (H1 & _ & _).
  destruct (shr_fexp prec emax m e l) as [mrs' e']. simpl fst in *.
  destruct (round_nearest_even_bound (shr_m mrs') (loc_of_shr_record mrs') H1) as [H2 _].
  destruct (shr_fexp_bound _ e' loc_Exact H2) as (H3 & _ & _).
  destruct (shr_fexp prec emax _ e' loc_Exact) as [mrs'' e'']. simpl fst in *.
  destruct (shr_m mrs'') as [| p | p]; [reflexivity | | lia].
  destruct (e'' <=? emax - prec); reflexivity.
Qed.

Lemma binary_normalize_sign (z e : Z) :
  0 <= z -> leb zero (binary_normalize prec emax z e false) = true.
Proof.
  intros Hz. destruct z as [| p | p]; [reflexivity | | lia].
  unfold binary_normalize, binary_round.
  destruct (shl_align p e _) as [mz ez]. apply binary_round_aux_sign. lia.
Qed.

(** The monotonicity test of [odeint] on two regular numbers: the difference
    of a larger and a smaller value is not negative. *)
Lemma sub_nonneg (a b : float) :
  regular base a -> regular base b -> fval base a <= fval base b -> leb zero (b - a)%f64 = true.
Proof.
  intros Ha Hb Hle.
  destruct a as [[] | | | [] ma ea]; try contradiction;
    destruct b as [[] | | | [] mb eb]; try contradiction; simpl in Ha, Hb.
  - reflexivity.
  - reflexivity.
  - exfalso. pose proof (scaled_pos ma ea Ha). unfold fval in Hle. lia.
  - unfold sub, SFsub. apply binary_normalize_sign.
    unfold cond_Zopp. set (ez := Z.min eb ea).
    assert (Hez : base <= ez) by (unfold ez; lia).
    pose proof (shl_align_value ma ea ez Hez ltac:(unfold ez; lia)) as Hva.
    pose proof (shl_align_value mb eb ez Hez ltac:(unfold ez; lia)) as Hvb.
    unfold fval in Hle. rewrite <- Hva, <- Hvb in Hle. unfold scaled in Hle.
    pose proof (pow2_pos (ez - base) ltac:(lia)) as Hp.
    set (Ma := Zpos (fst (shl_align ma ea ez))) in *.
    set (Mb := Zpos (fst (shl_align mb eb ez))) in *.
    assert (Ma <= Mb) by (apply (Z.mul_le_mono_pos_r _ _ (2 ^ (ez - base))); assumption).
    lia.
Qed.




Lemma add_zero_regular (k : Z) (y : float) : regular k y -> (y + zero)%f64 = y.
Proof. destruct y as [[] | | | [] m e]; simpl; intros H; try contradiction; reflexivity. Qed.

(** The product of two positive finite numbers is the rounded exact product. *)
Lemma mul_finite (ma mb : positive) (ea eb : Z) :
  (S754_finite false ma ea * S754_finite false mb eb)%f64 =
    binary_round_aux prec emax false (Zpos (ma * mb)) (ea + eb) loc_Exact.
Proof. reflexivity. Qed.

End Values.

Section Grid_order.

Local Open Scope Z_scope.

Variable base : Z.
Hypothesis Hbase : base <= -200.

Variable m : positive.
Variable e : Z.
Hypothesis Hm : 2 ^ 52 <= Zpos m < 2 ^ 53.
Hypothesis He : -52 <= e <= 971.

Lemma intervals_value : of_nat (num_samples - 1) = intervals.
Proof. reflexivity. Qed.

Lemma digits_53 (k : Z) : 2 ^ 52 <= k < 2 ^ 53 -> Zdigits2 k = 53.
Proof.
  intros Hk.
  pose proof (Zdigits2_le k 53 ltac:(lia) ltac:(lia) ltac:(lia)) as Hhi.
  pose proof (Zdigits2_lt_pow k ltac:(lia)) as Hlt.
  destruct (Z_le_gt_dec 53 (Zdigits2 k)) as [Hge | Hlt']; [lia |].
  exfalso.
  assert (2 ^ Zdigits2 k <= 2 ^ 52)
    by (apply Z.pow_le_mono_r; [lia | pose proof (Zdigits2_nonneg k); lia]).
  lia.
Qed.

Let u : Z := 2 ^ (e - 10 - base).
Let q : Z := (Zpos m * 2 ^ 53) / 8787296929185792.

Lemma quotient_bounds : 999 * q <= 1024 * Zpos m < 999 * (q + 1).
Proof.
  unfold q.
  pose proof (Z.mul_div_le (Zpos m * 2 ^ 53) 8787296929185792 ltac:(lia)) as Hlo.
  pose proof (Z.mul_succ_div_gt (Zpos m * 2 ^ 53) 8787296929185792 ltac:(lia)) as Hhi.
  set (k := Zpos m * 2 ^ 53 / 8787296929185792) in *.
  change (2 ^ 53) with 9007199254740992 in *.
  lia.
Qed.

Lemma quotient_range : 2 ^ 52 <= q < 2 ^ 54.
Proof.
  pose proof quotient_bounds as Hq.
  change (2 ^ 52) with 4503599627370496 in *.
  change (2 ^ 53) with 9007199254740992 in *.
  change (2 ^ 54) with 18014398509481984.
  lia.
Qed.

Lemma div_core :
  SFdiv_core_binary prec emax (Zpos m) e 8787296929185792 (-43) =
    (q, e - 10,
     new_location 8787296929185792
       (snd (Z.div_eucl (Zpos m * 2 ^ 53) 8787296929185792))).
Proof.
  unfold SFdiv_core_binary.
  rewrite (digits_53 (Zpos m) Hm).
  change (Zdigits2 8787296929185792) with 53.
  replace (Z.min (fexp prec emax (53 + e - (53 + -43))) (e - -43)) with (e - 10)
    by (unfold fexp, emin, emax, prec; lia).
  replace (e - -43 - (e - 10)) with 53 by lia.
  cbv iota beta.
  rewrite Z.shiftl_mul_pow2 by lia.
  unfold q, Z.div.
  destruct (Z.div_eucl (Zpos m * 2 ^ 53) 8787296929185792) as [q' r']. reflexivity.
Qed.

Lemma digits_ge (k x : Z) : 0 <= k -> 2 ^ k <= x -> k + 1 <= Zdigits2 x.
Proof.
  intros Hk Hx.
  assert (0 < 2 ^ k) by (apply pow2_pos; exact Hk).
  pose proof (Zdigits2_lt_pow x ltac:(lia)) as Hlt.
  pose proof (Zdigits2_nonneg x) as Hd.
  destruct (Z_le_gt_dec (k + 1) (Zdigits2 x)) as [Hge | Hgt]; [exact Hge |].
  exfalso.
  assert (2 ^ Zdigits2 x <= 2 ^ k) by (apply Z.pow_le_mono_r; lia).
  lia.
Qed.

Lemma unit_pos : 0 < u.
Proof. apply pow2_pos. lia. Qed.

Lemma overflow_threshold : 2 ^ 63 * u <= 2 ^ (1024 - base).
Proof.
  unfold u. rewrite <- Z.pow_add_r by lia.
  apply Z.pow_le_mono_r; lia.
Qed.

Let step : float := (S754_finite false m e / intervals)%f64.

(** The spacing is a positive finite number, within a few units of the exact
    quotient. *)
Lemma step_value :
  exists ms es,
    step = S754_finite false ms es /\ e - 10 <= es /\
    q * u - 6 * u < scaled base (Zpos ms) es <= q * u + 2 * u.
Proof.
  pose proof quotient_range as Hq. pose proof unit_pos as Hu.
  pose proof overflow_threshold as Hov.
  assert (Hd : 53 <= Zdigits2 q <= 54).
  { split; [apply (digits_ge 52 q); lia | apply Zdigits2_le; lia]. }
  set (e1 := fexp prec emax (Zdigits2 q + (e - 10))).
  assert (He1 : e - 10 <= e1 <= e - 9) by (unfold e1, fexp, emin, emax, prec; lia).
  assert (Hw : 2 ^ (e1 - base) <= 2 * u).
  { replace (2 * u) with (2 ^ (e - 9 - base)).
    - apply Z.pow_le_mono_r; lia.
    - unfold u. replace (e - 9 - base) with (1 + (e - 10 - base)) by lia.
      rewrite Z.pow_add_r by lia. reflexivity. }
  assert (Hw0 : 0 < 2 ^ (e1 - base)) by (apply pow2_pos; lia).
  assert (Hs : scaled base q (e - 10) = q * u) by reflexivity.
  destruct (binary_round_aux_value base q (e - 10)
              (new_location 8787296929185792
                 (snd (Z.div_eucl (Zpos m * 2 ^ 53) 8787296929185792))))
    as [Hreg Hval].
  - lia.
  - lia.
  - fold e1. lia.
  - fold e1. rewrite Hs.
    change (2 ^ 54) with 18014398509481984 in Hq.
    change (2 ^ 63) with 9223372036854775808 in Hov. nia.
  - fold e1 in Hreg, Hval. rewrite Hs in Hval.
    assert (Hstep : step = binary_round_aux prec emax false q (e - 10)
                      (new_location 8787296929185792
                         (snd (Z.div_eucl (Zpos m * 2 ^ 53) 8787296929185792)))).
    { unfold step, div, SFdiv, intervals. rewrite div_core. reflexivity. }
    rewrite <- Hstep in Hreg, Hval.
    change (2 ^ 52) with 4503599627370496 in Hq.
    assert (Hqu : 4503599627370496 * u <= q * u)
      by (apply Z.mul_le_mono_nonneg_r; lia).
    destruct step as [[] | | | [] ms es]; simpl in Hreg; try contradiction.
    + exfalso. change (fval base (S754_zero false)) with 0 in Hval. lia.
    + exists ms, es. split; [reflexivity |]. split; [lia |].
      unfold fval in Hval. lia.
Qed.

Lemma count_table : forallb count_exact (seq 1 998) = true.
Proof. vm_compute. reflexivity. Qed.

Lemma of_nat_shape (i : nat) :
  (1 <= i <= 998)%nat ->
  exists mi ei,
    of_nat i = S754_finite false mi ei /\
    -52 <= ei <= 0 /\ Zpos mi = Z.of_nat i * 2 ^ (- ei) /\ 2 ^ 52 <= Zpos mi.
Proof.
  intros Hi.
  pose proof (proj1 (forallb_forall count_exact (seq 1 998)) count_table i) as Hc.
  assert (Hin : In i (seq 1 998)) by (apply in_seq; lia).
  specialize (Hc Hin). unfold count_exact in Hc.
  destruct (of_nat i) as [| | | [] mi ei]; try discriminate.
  apply andb_true_iff in Hc. destruct Hc as [Hc H4].
  apply andb_true_iff in Hc. destruct Hc as [Hc H3].
  apply andb_true_iff in Hc. destruct Hc as [H1 H2].
  apply Z.leb_le in H1, H2, H4. apply Z.eqb_eq in H3.
  exists mi, ei. repeat split; assumption.
Qed.

(** The [i]-th multiple of the spacing, rounded: a regular number within a
    few units [w] of [i * S], the unit being at most [2 ^ -52] of the value. *)
Lemma product_value (ms : positive) (es : Z) (i : nat) :
  e - 10 <= es ->
  scaled base (Zpos ms) es <= q * u + 2 * u ->
  (1 <= i <= 998)%nat ->
  exists w,
    0 <= w /\
    2 ^ 52 * w <= Z.of_nat i * scaled base (Zpos ms) es /\
    regular base (of_nat i * S754_finite false ms es)%f64 /\
    Z.of_nat i * scaled base (Zpos ms) es - 3 * w
      <= fval base (of_nat i * S754_finite false ms es)%f64
      <= Z.of_nat i * scaled base (Zpos ms) es + w.
Proof.
  intros Hes HS Hi.
  destruct (of_nat_shape i Hi) as (mi & ei & -> & Hei & Hmi & Hmi52).
  rewrite mul_finite, Pos2Z.inj_mul.
  set (S := scaled base (Zpos ms) es) in *.
  set (M := Zpos mi * Zpos ms). set (E := ei + es).
  assert (HS0 : 0 < S) by (apply scaled_pos; lia).
  assert (HsME : scaled base M E = Z.of_nat i * S).
  { unfold S, M, E, scaled. rewrite Hmi.
    replace (es - base) with (- ei + (ei + es - base)) by lia.
    rewrite Z.pow_add_r by lia. ring. }
  assert (HM : 2 ^ 52 <= M) by (unfold M; nia).
  pose proof (digits_ge 52 M ltac:(lia) HM) as HD.
  set (D := Zdigits2 M) in *.
  assert (He1 : fexp prec emax (D + E) = D + E - 53)
    by (unfold fexp, emin, emax, prec, E; lia).
  set (w := 2 ^ (D + E - 53 - base)).
  assert (Hw0 : 0 < w) by (apply pow2_pos; unfold E; lia).
  assert (Hw : 2 ^ 52 * w <= scaled base M E).
  { pose proof (Zdigits2_ge_pow M ltac:(lia)) as Hlo. fold D in Hlo.
    unfold w, scaled. rewrite <- Z.pow_add_r by (unfold E; lia).
    replace (52 + (D + E - 53 - base)) with (D - 1 + (E - base)) by lia.
    rewrite Z.pow_add_r by (unfold E; lia).
    apply Z.mul_le_mono_nonneg_r; [| exact Hlo].
    pose proof (pow2_pos (E - base)). unfold E in *. lia. }
  pose proof quotient_bounds as Hq. pose proof unit_pos as Hu.
  pose proof overflow_threshold as Hov.
  assert (HQu : 999 * (q * u) <= 1024 * (Zpos m * u)) by nia.
  assert (HMu : Zpos m * u < 2 ^ 53 * u) by nia.
  assert (HiS : Z.of_nat i * S <= 998 * S) by nia.
  change (2 ^ 52) with 4503599627370496 in *.
  change (2 ^ 53) with 9007199254740992 in *.
  change (2 ^ 63) with 9223372036854775808 in *.
  destruct (binary_round_aux_value base M E loc_Exact) as [Hreg Hval].
  - lia.
  - unfold E. lia.
  - fold D. rewrite He1. lia.
  - fold D. rewrite He1. fold w. rewrite HsME.
    set (Qu := q * u) in *. set (Mu := Zpos m * u) in *. lia.
  - fold D in Hreg, Hval. rewrite He1 in Hreg, Hval. fold w in Hval.
    rewrite HsME in Hval, Hw.
    exists w. split; [lia |]. split; [exact Hw |]. split.
    + apply (regular_weaken (D + E - 53)); [unfold E; lia | exact Hreg].
    + lia.
Qed.

Lemma sample_value (ms : positive) (es : Z) (i : nat) :
  e - 10 <= es ->
  scaled base (Zpos ms) es <= q * u + 2 * u ->
  (i <= 998)%nat ->
  exists w,
    0 <= w /\
    2 ^ 52 * w <= Z.of_nat i * scaled base (Zpos ms) es /\
    regular base (of_nat i * S754_finite false ms es + zero)%f64 /\
    Z.of_nat i * scaled base (Zpos ms) es - 3 * w
      <= fval base (of_nat i * S754_finite false ms es + zero)%f64
      <= Z.of_nat i * scaled base (Zpos ms) es + w.
Proof.
  intros Hes HS Hi. destruct i as [| i].
  - exists 0. simpl. lia.
  - destruct (product_value ms es (S i) Hes HS ltac:(lia)) as (w & Hw0 & Hw & Hreg & Hval).
    rewrite (add_zero_regular base _ Hreg).
    exists w. repeat split; try assumption; lia.
Qed.

Lemma consecutive_samples (ms : positive) (es : Z) (i : nat) :
  e - 10 <= es ->
  q * u - 6 * u < scaled base (Zpos ms) es <= q * u + 2 * u ->
  (i + 1 <= 998)%nat ->
  leb zero ((of_nat (i + 1) * S754_finite false ms es + zero) -
            (of_nat i * S754_finite false ms es + zero))%f64 = true.
Proof.
  intros Hes HS Hi.
  destruct (sample_value ms es i Hes ltac:(lia) ltac:(lia))
    as (w & Hw0 & Hw & Hreg & Hval).
  destruct (sample_value ms es (i + 1) Hes ltac:(lia) ltac:(lia))
    as (w' & Hw0' & Hw' & Hreg' & Hval').
  apply (sub_nonneg base); try assumption.
  pose proof quotient_range as Hq. pose proof unit_pos as Hu.
  set (S := scaled base (Zpos ms) es) in *.
  rewrite Nat2Z.inj_add in Hw', Hval'. change (Z.of_nat 1) with 1 in *.
  assert (Hqu : 2 ^ 52 * u <= q * u) by (apply Z.mul_le_mono_nonneg_r; lia).
  assert (HiS : Z.of_nat i * S <= 997 * S) by nia.
  set (A := Z.of_nat i * S) in *.
  replace ((Z.of_nat i + 1) * S) with (A + S) in * by (unfold A; ring).
  change (2 ^ 52) with 4503599627370496 in *.
  lia.
Qed.

Lemma last_sample (ms : positive) (es : Z) :
  e - 10 <= es ->
  q * u - 6 * u < scaled base (Zpos ms) es <= q * u + 2 * u ->
  leb zero (S754_finite false m e -
            (of_nat 998 * S754_finite false ms es + zero))%f64 = true.
Proof.
  intros Hes HS.
  destruct (sample_value ms es 998 Hes ltac:(lia) ltac:(lia))
    as (w & Hw0 & Hw & Hreg & Hval).
  apply (sub_nonneg base); [exact Hreg | simpl; lia |].
  pose proof quotient_bounds as Hq. pose proof unit_pos as Hu.
  set (S := scaled base (Zpos ms) es) in *.
  assert (HT : fval base (S754_finite false m e) = 1024 * (Zpos m * u)).
  { unfold fval, scaled, u. replace (e - base) with (10 + (e - 10 - base)) by lia.
    rewrite Z.pow_add_r by lia. change (2 ^ 10) with 1024. ring. }
  rewrite HT.
  assert (HQu : 999 * (q * u) <= 1024 * (Zpos m * u)) by nia.
  assert (HMu : 2 ^ 52 * u <= Zpos m * u) by nia.
  change (Z.of_nat 998) with 998 in *.
  change (2 ^ 52) with 4503599627370496 in *.
  set (Qu := q * u) in *. set (Mu := Zpos m * u) in *.
  lia.
Qed.

(** Even spacing: the [i]-th sample is within [2 ^ -48] of its own size of
    the point [i * duration / 999]. *)
Lemma sample_even (ms : positive) (es : Z) (i : nat) :
  e - 10 <= es ->
  q * u - 6 * u < scaled base (Zpos ms) es <= q * u + 2 * u ->
  (i <= 998)%nat ->
  2 ^ 48 * Z.abs (999 * fval base (of_nat i * S754_finite false ms es + zero)%f64 -
                  Z.of_nat i * fval base (S754_finite false m e))
    <= Z.of_nat i * fval base (S754_finite false m e).
Proof.
  intros Hes HS Hi.
  destruct (sample_value ms es i Hes ltac:(lia) Hi) as (w & Hw0 & Hw & _ & Hval).
  pose proof quotient_bounds as Hq. pose proof unit_pos as Hu.
  set (v := fval base (of_nat i * S754_finite false ms es + zero)%f64) in *.
  set (S := scaled base (Zpos ms) es) in *.
  assert (HT : fval base (S754_finite false m e) = 1024 * (Zpos m * u)).
  { unfold fval, scaled, u. replace (e - base) with (10 + (e - 10 - base)) by lia.
    rewrite Z.pow_add_r by lia. change (2 ^ 10) with 1024. ring. }
  rewrite HT.
  assert (Hi0 : 0 <= Z.of_nat i) by lia.
  set (n := Z.of_nat i) in *.
  assert (HA1 : n * (q * u) - 6 * (n * u) <= n * S) by nia.
  assert (HA2 : n * S <= n * (q * u) + 2 * (n * u)) by nia.
  assert (HQ1 : 999 * (n * (q * u)) <= 1024 * (n * (Zpos m * u))) by nia.
  assert (HQ2 : 1024 * (n * (Zpos m * u)) <= 999 * (n * (q * u)) + 999 * (n * u)) by nia.
  assert (HU : 2 ^ 52 * (n * u) <= n * (Zpos m * u)) by nia.
  assert (HU0 : 0 <= n * u) by nia.
  replace (n * (1024 * (Zpos m * u))) with (1024 * (n * (Zpos m * u))) by ring.
  set (A := n * S) in *. set (U := n * u) in *. set (Q := n * (q * u)) in *.
  set (M := n * (Zpos m * u)) in *.
  change (2 ^ 52) with 4503599627370496 in *.
  change (2 ^ 48) with 281474976710656.
  lia.
Qed.




End Grid_order.

Section Grid_list.

Local Open Scope Z_scope.

Lemma forallb_diff_grid (g : nat -> float) (last : float) (n : nat) :
  forall s : nat,
    (forall i, (s <= i)%nat -> (i + 1 < s + n)%nat ->
               leb zero (g (i + 1)%nat - g i)%f64 = true) ->
    ((1 <= n)%nat -> leb zero (last - g (s + n - 1)%nat)%f64 = true) ->
    forallb (fun d => leb zero d) (diff (map g (seq s n) ++ [last])) = true.
Proof.
  induction n as [| n IH]; intros s Hstep Hlast.
  - reflexivity.
  - destruct n as [| n'].
    + simpl. rewrite andb_true_r.
      replace (s + 1 - 1)%nat with s in Hlast by lia. apply Hlast. lia.
    + change (map g (seq s (S (S n'))) ++ [last])
        with (g s :: g (S s) :: (map g (seq (S (S s)) n') ++ [last])).
      change (diff (g s :: g (S s) :: (map g (seq (S (S s)) n') ++ [last])))
        with ((g (S s) - g s)%f64 ::
              diff (map g (seq (S s) (S n')) ++ [last])).
      simpl forallb. apply andb_true_iff. split.
      * replace (S s) with (s + 1)%nat by lia. apply Hstep; lia.
      * apply IH.
        -- intros i Hi1 Hi2. apply Hstep; lia.
        -- intros _. replace (S s + S n' - 1)%nat with (s + S (S n') - 1)%nat by lia.
           apply Hlast. lia.
Qed.


End Grid_list.

Section Grid_monotone.

Local Open Scope Z_scope.

Lemma duration_shape (time_end : float) :
  well_formed time_end = true -> is_finite time_end = true -> leb one time_end = true ->
  exists m e,
    time_end = S754_finite false m e /\
    2 ^ 52 <= Zpos m < 2 ^ 53 /\ -52 <= e <= 971.
Proof.
  intros Hwf Hfin Hge.
  destruct time_end as [s | s | | s m e]; try discriminate.
  unfold well_formed, valid_binary, bounded, canonical_mantissa in Hwf.
  apply andb_true_iff in Hwf. destruct Hwf as [Hcan Hex].
  apply Z.eqb_eq in Hcan. apply Z.leb_le in Hex.
  assert (Hs : s = false /\ -52 <= e).
  { change one with (S754_finite false 4503599627370496 (-52)) in Hge.
    unfold leb, SFleb, SFcompare in Hge.
    destruct s; [discriminate |].
    split; [reflexivity |].
    destruct (-52 ?= e) eqn:Hc; try discriminate.
    - apply Z.compare_eq in Hc. lia.
    - change (-52 < e) in Hc. lia. }
  destruct Hs as [-> He]. exists m, e. split; [reflexivity |].
  unfold fexp, emin, emax, prec in Hcan, Hex.
  assert (Hd : Zpos (digits2_pos m) = 53) by lia.
  pose proof (digits2_bounds m) as Hb. rewrite Hd in Hb.
  change (53 - 1) with 52 in Hb. lia.
Qed.

Lemma grid_monotone_finite (m : positive) (e : Z) :
  2 ^ 52 <= Zpos m < 2 ^ 53 -> -52 <= e <= 971 ->
  monotone (linspace zero (S754_finite false m e) num_samples) = true.
Proof.
  intros Hm He.
  assert (Hbase : -200 <= -200) by lia.
  destruct (step_value (-200) Hbase m e Hm He) as (ms & es & Hstep & Hes & HS).
  set (te := S754_finite false m e) in *.
  assert (Hls : linspace_step zero te num_samples = S754_finite false ms es).
  { unfold linspace_step. rewrite sub_zero_r. exact Hstep. }
  unfold monotone. apply orb_true_iff. left.
  rewrite linspace_pinned by (unfold num_samples; lia).
  rewrite (map_ext (linspace_sample zero te num_samples)
             (fun i => (of_nat i * S754_finite false ms es + zero)%f64)).
  - apply forallb_diff_grid.
    + intros i _ Hi.
      apply (consecutive_samples (-200) Hbase m e Hm He ms es i Hes HS).
      unfold num_samples in Hi. lia.
    + intros _. change (0 + (num_samples - 1) - 1)%nat with 998%nat.
      apply (last_sample (-200) Hbase m e Hm He ms es Hes HS).
  - intros i. rewrite linspace_sample_regular.
    + rewrite Hls. reflexivity.
    + unfold num_samples; lia.
    + rewrite Hls. reflexivity.
Qed.

(** The sample times of every finite duration of at least one time unit pass
    the monotonicity test of the integrator. *)
Lemma sample_grid_monotone (time_end : float) :
  well_formed time_end = true -> is_finite time_end = true -> leb one time_end = true ->
  monotone (linspace zero time_end num_samples) = true.
Proof.
  intros Hwf Hfin Hge.
  destruct (duration_shape time_end Hwf Hfin Hge) as (m & e & -> & Hm & He).
  apply grid_monotone_finite; assumption.
Qed.

(** For such a duration the spacing is a positive finite number. *)
Lemma linspace_step_positive (time_end : float) :
  well_formed time_end = true -> is_finite time_end = true -> leb one time_end = true ->
  exists ms es, linspace_step zero time_end num_samples = S754_finite false ms es.
Proof.
  intros Hwf Hfin Hge.
  destruct (duration_shape time_end Hwf Hfin Hge) as (m & e & -> & Hm & He).
  assert (Hbase : -200 <= -200) by lia.
  destruct (step_value (-200) Hbase m e Hm He) as (ms & es & Hstep & _).
  exists ms, es. unfold linspace_step. rewrite sub_zero_r. exact Hstep.
Qed.

(** The sample grid of a duration, spelled out with the spacing. *)
Lemma grid_samples (m : positive) (e : Z) :
  2 ^ 52 <= Zpos m < 2 ^ 53 -> -52 <= e <= 971 ->
  exists ms es,
    e - 10 <= es /\
    (let q := (Zpos m * 2 ^ 53) / 8787296929185792 in
     let u := 2 ^ (e - 10 - -1074) in
     q * u - 6 * u < scaled (-1074) (Zpos ms) es <= q * u + 2 * u) /\
    linspace zero (S754_finite false m e) num_samples =
      map (fun i => (of_nat i * S754_finite false ms es + zero)%f64)
          (seq 0 (num_samples - 1)) ++ [S754_finite false m e].
Proof.
  intros Hm He.
  assert (Hbase : -1074 <= -200) by lia.
  destruct (step_value (-1074) Hbase m e Hm He) as (ms & es & Hstep & Hes & HS).
  set (te := S754_finite false m e) in *.
  assert (Hls : linspace_step zero te num_samples = S754_finite false ms es).
  { unfold linspace_step. rewrite sub_zero_r. exact Hstep. }
  exists ms, es. split; [exact Hes |]. split; [exact HS |].
  rewrite linspace_pinned by (unfold num_samples; lia).
  f_equal. apply map_ext. intros i. rewrite linspace_sample_regular.
  - rewrite Hls. reflexivity.
  - unfold num_samples; lia.
  - rewrite Hls. reflexivity.
Qed.


(** The sample times are evenly spaced: sample [i] is a zero or a positive
    finite number, within [2 ^ -48] of its own size of [i * duration / 999]. *)
Lemma sample_grid_even (time_end : float) (i : nat) (ti : float) :
  well_formed time_end = true -> is_finite time_end = true -> leb one time_end = true ->
  nth_error (linspace zero time_end num_samples) i = Some ti ->
  regular (-1074) ti /\
  2 ^ 48 * Z.abs (999 * value ti - Z.of_nat i * value time_end)
    <= Z.of_nat i * value time_end.
Proof.
  intros Hwf Hfin Hge Hnth.
  destruct (duration_shape time_end Hwf Hfin Hge) as (m & e & -> & Hm & He).
  assert (Hbase : -1074 <= -200) by lia.
  destruct (grid_samples m e Hm He) as (ms & es & Hes & HS & Hgrid).
  cbv zeta in HS. rewrite Hgrid in Hnth.
  assert (Hval : forall x, regular (-1074) x -> value x = fval (-1074) x).
  { intros [[] | | | [] mx ex]; simpl; intros Hx; try contradiction; reflexivity. }
  assert (Hlen : length (map (fun i => (of_nat i * S754_finite false ms es + zero)%f64)
                             (seq 0 (num_samples - 1))) = 999%nat)
    by (rewrite length_map, length_seq; reflexivity).
  destruct (Nat.lt_ge_cases i 999) as [Hi | Hi].
  - rewrite nth_error_app1 in Hnth by (rewrite Hlen; exact Hi).
    rewrite nth_error_map, nth_error_seq in Hnth.
    destruct (Nat.ltb_spec i (num_samples - 1)) as [_ | Hbad];
      [| unfold num_samples in Hbad; lia].
    simpl in Hnth. injection Hnth as <-.
    destruct (sample_value (-1074) Hbase m e Hm He ms es i Hes ltac:(lia) ltac:(lia))
      as (w & _ & _ & Hreg & _).
    split; [exact Hreg |].
    rewrite (Hval _ Hreg). change (value (S754_finite false m e))
      with (fval (-1074) (S754_finite false m e)).
    apply (sample_even (-1074) Hbase m e Hm He ms es i Hes HS). lia.
  - rewrite nth_error_app2 in Hnth by (rewrite Hlen; exact Hi).
    rewrite Hlen in Hnth.
    destruct (i - 999)%nat as [| k] eqn:Hk; simpl in Hnth;
      [| destruct k; discriminate].
    injection Hnth as <-. split; [simpl; lia |].
    replace i with 999%nat by lia. change (Z.of_nat 999) with 999.
    rewrite Z.sub_diag. simpl Z.abs. rewrite Z.mul_0_r.
    assert (0 <= value (S754_finite false m e)); [| lia].
    unfold value, cond_Zopp, scaled.
    pose proof (pow2_pos (e - -1074) ltac:(lia)) as Hpw. nia.
Qed.

End Grid_monotone.

(** * The reference integrator meets the contract *)

Section Reference_integrator.

Lemma euler_update_length (h : float) (y dy : list float) :
  length dy = length y -> length (euler_update h y dy) = length y.
Proof.
  revert dy; induction y as [| yi y IH]; intros [| di dy] Hlen; simpl in *;
    try discriminate; try reflexivity.
  f_equal. apply IH. lia.
Qed.

Lemma euler_steps_shape (func : rhs) (args : float * float) (ts : list float) :
  forall (y : list float) (t_prev : float) (rows : list (list float)),
    euler_steps func args y t_prev ts = Ok rows ->
    length rows = length ts /\ Forall (fun row => length row = length y) rows.
Proof.
  induction ts as [| t_next ts IH]; intros y t_prev rows Hrun; simpl in Hrun.
  - inversion Hrun; subst. split; [reflexivity | constructor].
  - destruct (eqb t_next t_prev).
    + destruct (euler_steps func args y t_prev ts) as [rows' |] eqn:Hrest;
        simpl in Hrun; [| discriminate].
      inversion Hrun; subst. destruct (IH _ _ _ Hrest) as [Hlen Hrows].
      split; [simpl; congruence | constructor; [reflexivity | exact Hrows]].
    + destruct (func y t_prev (fst args) (snd args)) as [dy |]; simpl in Hrun;
        [| discriminate].
      destruct (Nat.eqb_spec (length dy) (length y)) as [Hdy |]; [| discriminate].
      destruct (euler_steps func args _ t_next ts) as [rows' |] eqn:Hrest;
        simpl in Hrun; [| discriminate].
      inversion Hrun; subst. destruct (IH _ _ _ Hrest) as [Hlen Hrows].
      pose proof (euler_update_length (t_next - t_prev)%f64 y dy Hdy) as Hupd.
      split; [simpl; congruence |].
      constructor; [exact Hupd |].
      eapply Forall_impl; [| exact Hrows]. simpl. intros row Hrow. congruence.
Qed.

Lemma euler_steps_callback_error (func : rhs) (args : float * float)
    (y : list float) (t0 : float) (e : exn) (ts : list float) :
  existsb (fun s => negb (eqb s t0)) ts = true ->
  func y t0 (fst args) (snd args) = Raise e ->
  euler_steps func args y t0 ts = Raise e.
Proof.
  intros Hadv Hraise. induction ts as [| t_next ts IH]; simpl in *.
  - discriminate.
  - destruct (eqb t_next t0); simpl in Hadv.
    + rewrite (IH Hadv). reflexivity.
    + rewrite Hraise. reflexivity.
Qed.

Lemma odeint_euler_contract : odeint_contract odeint_euler.
Proof.
  constructor.
  - intros func y0 t args solution. unfold odeint_euler.
    destruct (monotone t); [| discriminate].
    destruct t as [| t0 ts].
    + intros H; inversion H; subst. split; [reflexivity | constructor].
    + destruct (euler_steps func args y0 t0 ts) as [rows |] eqn:Hrows; simpl;
        [| discriminate].
      intros H; inversion H; subst.
      destruct (euler_steps_shape _ _ _ _ _ _ Hrows) as [Hlen Hall].
      split; [simpl; congruence | constructor; [reflexivity | exact Hall]].
  - intros func y0 t args solution. unfold odeint_euler.
    destruct (monotone t); [| discriminate].
    destruct t as [| t0 ts]; [intros _ Hne; congruence |].
    destruct (euler_steps func args y0 t0 ts) as [rows |]; simpl; [| discriminate].
    intros H _; inversion H; reflexivity.
  - intros func y0 t args e _ Hmono Hadv Hraise. unfold odeint_euler.
    rewrite Hmono. destruct t as [| t0 ts]; [discriminate |].
    simpl in Hadv, Hraise.
    rewrite (euler_steps_callback_error func args y0 t0 e ts Hadv Hraise).
    reflexivity.
Qed.

(** An exception of the stepping loop is the callback's, or the size error
    after a callback result of the wrong size. *)
Lemma euler_steps_raises (func : rhs) (args : float * float) (n : nat) (e : exn)
    (ts : list float) :
  forall (y : list float) (t_prev : float),
    length y = n ->
    euler_steps func args y t_prev ts = Raise e ->
    (e = RuntimeError /\
     exists y' s dy, func y' s (fst args) (snd args) = Ok dy /\ length dy <> n) \/
    (exists y' s, func y' s (fst args) (snd args) = Raise e).
Proof.
  induction ts as [| t_next ts IH]; intros y t_prev Hy Hrun; simpl in Hrun.
  - discriminate.
  - destruct (eqb t_next t_prev).
    + destruct (euler_steps func args y t_prev ts) as [rows |] eqn:Hrest;
        simpl in Hrun; [discriminate |].
      injection Hrun as ->. exact (IH y t_prev Hy Hrest).
    + destruct (func y t_prev (fst args) (snd args)) as [dy | e'] eqn:Hdy;
        simpl in Hrun.
      * destruct (Nat.eqb_spec (length dy) (length y)) as [Hlen | Hlen].
        -- destruct (euler_steps func args _ t_next ts) as [rows |] eqn:Hrest;
             simpl in Hrun; [discriminate |].
           injection Hrun as ->.
           apply (IH (euler_update (t_next - t_prev)%f64 y dy) t_next); [| exact Hrest].
           rewrite euler_update_length by exact Hlen. exact Hy.
        -- injection Hrun as <-. left. split; [reflexivity |].
           exists y, t_prev, dy. split; [exact Hdy | congruence].
      * injection Hrun as ->. right. exists y, t_prev. exact Hdy.
Qed.

Lemma odeint_euler_failures : odeint_failures odeint_euler.
Proof.
  constructor.
  - intros func y0 t args e _ _. unfold odeint_euler.
    destruct (monotone t) eqn:Hmono.
    + destruct t as [| t0 ts]; [discriminate |].
      destruct (euler_steps func args y0 t0 ts) as [rows |] eqn:Hrows; simpl;
        [discriminate |].
      intros H; injection H as ->. right.
      exact (euler_steps_raises func args (length y0) e ts y0 t0 eq_refl Hrows).
    + intros H; injection H as <-. left. split; reflexivity.
  - intros func y0 t args solution _ Hadv. unfold odeint_euler.
    destruct (monotone t); [| discriminate].
    destruct t as [| t0 ts]; [discriminate |].
    simpl in Hadv.
    destruct (func y0 t0 (fst args) (snd args)) as [dy | e] eqn:Hdy.
    + intros _. exists y0, t0, dy. exact Hdy.
    + rewrite (euler_steps_callback_error func args y0 t0 e ts Hadv Hdy).
      discriminate.
Qed.

End Reference_integrator.

(** * The run-simulation handler *)

Section Handler.

Variable odeint : integrator.

Lemma is_empty_false {A : Type} (l : list A) : l <> [] -> is_empty l = false.
Proof. destruct l; [congruence | reflexivity]. Qed.

Lemma initial_concentrations_length (st : session_state) :
  length (initial_concentrations st) =
    (length (reactants st) + length (products st))%nat.
Proof. unfold initial_concentrations. now rewrite length_app, !length_map. Qed.

Lemma species_names_length (st : session_state) :
  length (species_names st) = length (initial_concentrations st).
Proof.
  unfold species_names, initial_concentrations. now rewrite !length_app, !length_map.
Qed.

(** Past the guard the handler ends as the integrator does. *)
Lemma run_simulation_guarded (kf K time_end : float) (st : session_state) :
  reactants st <> [] -> products st <> [] ->
  run_simulation odeint kf K time_end st =
    (match odeint (fun C t kf K => fst (reaction_rate C t kf K st))
                  (initial_concentrations st)
                  (linspace zero time_end num_samples) (kf, K) with
     | Ok solution =>
         Solved {| times := linspace zero time_end num_samples;
                   concentrations := solution |}
     | Raise e => Failed e
     end, st).
Proof.
  intros Hr Hp. unfold run_simulation, simulate.
  rewrite (is_empty_false _ Hr), (is_empty_false _ Hp). simpl.
  destruct (odeint _ _ _ _); reflexivity.
Qed.

(** C8. A run started while the reactant list or the product list is empty
    ends with the missing-species message and the session state untouched;
    the integrator has no part in the outcome, so no trajectory is computed. *)
Theorem run_simulation_rejects_missing_species
    (kf K time_end : float) (st : session_state) :
  reactants st = [] \/ products st = [] ->
  run_simulation odeint kf K time_end st = (Rejected missing_species_message, st).
Proof.
  intros [H | H]; unfold run_simulation; rewrite H; simpl.
  - reflexivity.
  - rewrite orb_true_r. reflexivity.
Qed.

Lemma duration_input_cases (time_end : float) :
  duration_input time_end = true ->
  well_formed time_end = true /\ is_finite time_end = true /\ leb one time_end = true.
Proof. unfold duration_input. rewrite !andb_true_iff. tauto. Qed.

Lemma sample_times_nonempty (time_end : float) :
  linspace zero time_end num_samples <> [].
Proof.
  intros Hnil. pose proof (linspace_length zero time_end num_samples) as Hl.
  rewrite Hnil in Hl. discriminate.
Qed.

(** The callback of the script never returns a vector of the wrong size. *)
Lemma callback_size (st : session_state) (kf K : float) (y dy : list float) (s : float) :
  fst (reaction_rate y s kf K st) = Ok dy ->
  length dy = length (initial_concentrations st).
Proof.
  destruct (eqb K zero) eqn:HK.
  - rewrite reaction_rate_zero_divisor by exact HK. discriminate.
  - rewrite (reaction_rate_value st y s kf K HK). cbn [fst]. intros H.
    injection H as <-.
    rewrite length_app, !repeat_length. symmetry. apply initial_concentrations_length.
Qed.

Hypothesis failures : odeint_failures odeint.

(** With a non-zero [K] the integration returns a solution: none of the
    reasons [odeint] has to fail applies. *)
Lemma odeint_returns (kf K time_end : float) (st : session_state) :
  initial_concentrations st <> [] ->
  eqb K zero = false ->
  duration_input time_end = true ->
  exists solution,
    odeint (fun C t kf K => fst (reaction_rate C t kf K st))
           (initial_concentrations st)
           (linspace zero time_end num_samples) (kf, K) = Ok solution.
Proof.
  intros Hy0 HK Hdur.
  destruct (duration_input_cases time_end Hdur) as (Hwf & Hfin & Hge).
  destruct (odeint _ _ _ _) as [solution | e] eqn:Hrun; [exists solution; reflexivity |].
  exfalso.
  destruct (odeint_raises failures _ _ _ _ _ Hy0 (sample_times_nonempty time_end) Hrun)
    as [[_ Hbad] | [[_ (y & s & dy & Hdy & Hsize)] | (y & s & Hdy)]].
  - rewrite (sample_grid_monotone time_end Hwf Hfin Hge) in Hbad. discriminate.
  - cbv beta in Hdy. cbn [fst snd] in Hdy.
    exact (Hsize (callback_size st kf K y dy s Hdy)).
  - cbv beta in Hdy. cbn [fst snd] in Hdy.
    rewrite (reaction_rate_value st y s kf K HK) in Hdy. discriminate.
Qed.

(** C2. With [K = 0], of either sign, the computation of lines 98-105 fails
    with [ZeroDivisionError], the error of the division [kf / K] in the rate
    function: it returns no trajectory and raises nothing else, whatever
    [kf], the species (at least one) and their initial concentrations, for
    every duration the script can run with.  The handler passes the error on,
    unless its check of the species lists has stopped the run before. *)
Theorem simulate_zero_K
    (kf K time_end : float) (st : session_state) :
  initial_concentrations st <> [] ->
  eqb K zero = true ->
  duration_input time_end = true ->
  simulate odeint kf K time_end st = (Raise ZeroDivisionError, st) /\
  run_simulation odeint kf K time_end st =
    (if is_empty (reactants st) || is_empty (products st)
     then Rejected missing_species_message
     else Failed ZeroDivisionError, st).
Proof.
  intros Hy0 HK Hdur.
  destruct (duration_input_cases time_end Hdur) as (Hwf & Hfin & Hge).
  assert (Hsim : simulate odeint kf K time_end st = (Raise ZeroDivisionError, st)).
  { unfold simulate. cbv zeta.
    destruct (odeint _ _ _ _) as [solution | e] eqn:Hrun; simpl.
    - exfalso.
      destruct (odeint_evaluates failures _ _ _ _ _ Hy0
                  (linspace_advances time_end num_samples ltac:(unfold num_samples; lia)
                     (at_least_one_positive time_end Hge)) Hrun)
        as (y & s & dy & Hdy).
      cbv beta in Hdy. cbn [fst snd] in Hdy.
      rewrite reaction_rate_zero_divisor in Hdy by exact HK. discriminate.
    - destruct (odeint_raises failures _ _ _ _ _ Hy0 (sample_times_nonempty time_end) Hrun)
        as [[_ Hmono] | [[_ (y & s & dy & Hdy & _)] | (y & s & Hdy)]].
      + rewrite (sample_grid_monotone time_end Hwf Hfin Hge) in Hmono. discriminate.
      + cbv beta in Hdy. cbn [fst snd] in Hdy.
        rewrite reaction_rate_zero_divisor in Hdy by exact HK. discriminate.
      + cbv beta in Hdy. cbn [fst snd] in Hdy.
        rewrite reaction_rate_zero_divisor in Hdy by exact HK.
        injection Hdy as <-. reflexivity. }
  split; [exact Hsim |].
  unfold run_simulation.
  destruct (is_empty (reactants st) || is_empty (products st)); [reflexivity |].
  rewrite Hsim. reflexivity.
Qed.

Hypothesis contract : odeint_contract odeint.

(** C4. For every duration the script can run with, the sample times are
    [num_samples = 1000] points from [0.0] to the duration, both included, in
    non-decreasing order and evenly spaced: sample [i] is within [2 ^ -48] of
    its own size of [i * duration / 999].  With at least one species and
    [K] not zero the run returns a trajectory: it carries these times and one
    row per sample time, each row with one entry per species in the order of
    the initial concentrations (reactants, then products), the first row
    being the initial concentrations. *)
Theorem simulate_sample_grid
    (kf K time_end : float) (st : session_state) :
  initial_concentrations st <> [] ->
  eqb K zero = false ->
  duration_input time_end = true ->
  let t := linspace zero time_end num_samples in
  length t = 1000%nat /\
  nth_error t 0 = Some zero /\
  nth_error t 999 = Some time_end /\
  monotone t = true /\
  (forall i ti,
     nth_error t i = Some ti ->
     regular (-1074) ti /\
     (2 ^ 48 * Z.abs (999 * value ti - Z.of_nat i * value time_end)
      <= Z.of_nat i * value time_end)%Z) /\
  exists tr,
    simulate odeint kf K time_end st = (Ok tr, st) /\
    times tr = t /\
    length (concentrations tr) = 1000%nat /\
    Forall (fun row => length row = (length (reactants st) + length (products st))%nat)
           (concentrations tr) /\
    hd_error (concentrations tr) = Some (initial_concentrations st).
Proof.
  intros Hy0 HK Hdur t.
  destruct (duration_input_cases time_end Hdur) as (Hwf & Hfin & Hge).
  pose proof (linspace_step_finite time_end Hwf Hfin) as Hstep.
  assert (Hnum : (1 < num_samples)%nat) by (unfold num_samples; lia).
  pose proof (sample_grid_monotone time_end Hwf Hfin Hge) as Hmono.
  split; [apply linspace_length |].
  split.
  { unfold t. rewrite linspace_nth_error by (unfold num_samples; lia).
    f_equal. apply first_sample_finite_step; assumption. }
  split.
  { unfold t. rewrite linspace_pinned by exact Hnum.
    rewrite nth_error_app2 by (rewrite length_map, length_seq; unfold num_samples; lia).
    rewrite length_map, length_seq. reflexivity. }
  split; [exact Hmono |].
  split.
  { intros i ti Hti. exact (sample_grid_even time_end i ti Hwf Hfin Hge Hti). }
  destruct (odeint_returns kf K time_end st Hy0 HK Hdur) as (solution & Hrun).
  unfold simulate. cbv zeta. rewrite Hrun. cbn [bind].
  destruct (odeint_shape contract _ _ _ _ _ Hrun) as [Hlen Hrows].
  eexists. split; [reflexivity |]. cbn [times concentrations].
  split; [reflexivity |]. split.
  { rewrite Hlen. apply linspace_length. }
  split.
  - rewrite <- initial_concentrations_length. exact Hrows.
  - exact (odeint_initial_row contract _ _ _ _ _ Hrun (sample_times_nonempty time_end)).
Qed.

End Handler.

(** * The handler on sample inputs *)

Section Handler_examples.

Lemma run_simulation_rejects_missing_species_witness :
  run_simulation odeint_euler one one ten fresh_session =
    (Rejected missing_species_message, fresh_session).
Proof.
  apply (run_simulation_rejects_missing_species odeint_euler one one ten fresh_session).
  left; reflexivity.
Defined.

Lemma simulate_zero_K_witness :
  simulate odeint_euler one zero ten A_B = (Raise ZeroDivisionError, A_B) /\
  run_simulation odeint_euler one zero ten A_B =
    (if is_empty (reactants A_B) || is_empty (products A_B)
     then Rejected missing_species_message
     else Failed ZeroDivisionError, A_B).
Proof.
  apply (simulate_zero_K odeint_euler odeint_euler_failures one zero ten A_B);
    first [discriminate | reflexivity].
Defined.

Lemma simulate_sample_grid_witness :
  let t := linspace zero ten num_samples in
  length t = 1000%nat /\
  nth_error t 0 = Some zero /\
  nth_error t 999 = Some ten /\
  monotone t = true /\
  (forall i ti,
     nth_error t i = Some ti ->
     regular (-1074) ti /\
     (2 ^ 48 * Z.abs (999 * value ti - Z.of_nat i * value ten)
      <= Z.of_nat i * value ten)%Z) /\
  exists tr,
    simulate odeint_euler one one ten A_B = (Ok tr, A_B) /\
    times tr = t /\
    length (concentrations tr) = 1000%nat /\
    Forall (fun row => length row = (length (reactants A_B) + length (products A_B))%nat)
           (concentrations tr) /\
    hd_error (concentrations tr) = Some (initial_concentrations A_B).
Proof.
  apply (simulate_sample_grid odeint_euler odeint_euler_failures odeint_euler_contract
           one one ten A_B);
    first [discriminate | reflexivity].
Defined.

(** The run behind the witnesses does return a trajectory. *)
Example run_simulation_A_B :
  solved_rows (fst (run_simulation odeint_euler one one ten A_B)) = Some 1000%nat /\
  monotone (linspace zero ten num_samples) = true /\
  eqb (linspace_step zero ten num_samples) zero = false.
Proof. vm_compute. repeat split. Qed.

End Handler_examples.

(** * Editing the species lists *)

Section Species_edits.

Lemma list_pop_in_range {A : Type} (i : nat) (l : list A) :
  (i < length l)%nat -> list_pop i l = Some (firstn i l ++ skipn (S i) l).
Proof.
  intros Hi. unfold list_pop.
  destruct (Nat.ltb_spec i (length l)) as [_ | Hge]; [reflexivity | lia].
Qed.

Lemma list_pop_last {A : Type} (l : list A) (x : A) :
  list_pop (length l) (l ++ [x]) = Some l.
Proof.
  rewrite list_pop_in_range by (rewrite length_app; simpl; lia).
  f_equal. induction l as [| a l IH]; [reflexivity |].
  change (a :: (firstn (length l) (l ++ [x]) ++ skipn (S (length l)) (l ++ [x])) = a :: l).
  now rewrite IH.
Qed.

Lemma list_pop_length {A : Type} (i : nat) (l rest : list A) :
  list_pop i l = Some rest -> length l = S (length rest).
Proof.
  unfold list_pop. destruct (Nat.ltb_spec i (length l)) as [Hlt | _]; [| discriminate].
  intros H.
  assert (rest = firstn i l ++ skipn (S i) l) as -> by congruence. clear H.
  rewrite length_app, length_firstn, length_skipn. lia.
Qed.

(** What is left after a pop: the elements before [i] where they were, the
    ones after it one place down. *)
Lemma list_pop_nth_error {A : Type} (i j : nat) (l rest : list A) :
  list_pop i l = Some rest ->
  nth_error rest j = nth_error l (if (j <? i)%nat then j else S j).
Proof.
  unfold list_pop. destruct (Nat.ltb_spec i (length l)) as [Hlt | _]; [| discriminate].
  intros H.
  assert (rest = firstn i l ++ skipn (S i) l) as -> by congruence. clear H.
  assert (Hlen : length (firstn i l) = i) by (rewrite length_firstn; lia).
  destruct (Nat.ltb_spec j i) as [Hji | Hij].
  - rewrite nth_error_app1 by lia. rewrite nth_error_firstn.
    destruct (Nat.ltb_spec j i); [reflexivity | lia].
  - rewrite nth_error_app2 by lia. rewrite Hlen, nth_error_skipn.
    f_equal. lia.
Qed.

Lemma In_firstn {A : Type} (n : nat) (l : list A) (x : A) :
  In x (firstn n l) -> In x l.
Proof.
  intros Hin. rewrite <- (firstn_skipn n l). apply in_or_app. left; exact Hin.
Qed.

Lemma In_skipn {A : Type} (n : nat) (l : list A) (x : A) :
  In x (skipn n l) -> In x l.
Proof.
  intros Hin. rewrite <- (firstn_skipn n l). apply in_or_app. right; exact Hin.
Qed.

Lemma list_pop_In {A : Type} (i : nat) (l rest : list A) (x : A) :
  list_pop i l = Some rest -> In x rest -> In x l.
Proof.
  unfold list_pop. destruct (i <? length l)%nat; [| discriminate].
  intros H.
  assert (rest = firstn i l ++ skipn (S i) l) as -> by congruence. clear H. intros Hin.
  apply in_app_or in Hin. destruct Hin as [Hin | Hin].
  - eapply In_firstn; exact Hin.
  - eapply In_skipn; exact Hin.
Qed.

(** X4. The "add product" button with a non-empty name leaves the reactants
    alone and puts the new species last, in the names as in the concentration
    vector. *)
Theorem add_product_appends_last
    (product_name : string) (product_initial : float) (st : session_state) :
  product_name <> "" ->
  reactants (snd (add_product product_name product_initial st)) = reactants st /\
  initial_concentrations (snd (add_product product_name product_initial st)) =
    initial_concentrations st ++ [product_initial] /\
  species_names (snd (add_product product_name product_initial st)) =
    species_names st ++ [product_name].
Proof.
  intros Hne. unfold add_product.
  destruct (String.eqb_spec product_name "") as [Heq | _]; [contradiction |].
  unfold initial_concentrations, species_names. simpl.
  rewrite !map_app, !app_assoc. repeat split.
Qed.

Lemma add_product_appends_last_witness :
  reactants (snd (add_product "C" ten A_B)) = reactants A_B /\
  initial_concentrations (snd (add_product "C" ten A_B)) =
    initial_concentrations A_B ++ [ten] /\
  species_names (snd (add_product "C" ten A_B)) = species_names A_B ++ ["C"].
Proof. apply (add_product_appends_last "C" ten A_B). discriminate. Defined.

(** X5. The "add reactant" button with a non-empty name puts the new species
    between the reactants and the products: its concentration takes index
    [n_reactants] of the concentration vector and every product moves one
    index up. *)
Theorem add_reactant_enters_before_products
    (reactant_name : string) (reactant_initial : float) (st : session_state) :
  reactant_name <> "" ->
  let st' := snd (add_reactant reactant_name reactant_initial st) in
  initial_concentrations st' =
    map initial (reactants st) ++ reactant_initial :: map initial (products st) /\
  species_names st' =
    map name (reactants st) ++ reactant_name :: map name (products st) /\
  nth_error (initial_concentrations st') (length (reactants st)) = Some reactant_initial /\
  forall j,
    nth_error (initial_concentrations st') (length (reactants st) + 1 + j) =
    nth_error (initial_concentrations st) (length (reactants st) + j).
Proof.
  intros Hne st'. unfold st', add_reactant.
  destruct (String.eqb_spec reactant_name "") as [Heq | _]; [contradiction |].
  unfold initial_concentrations, species_names. simpl.
  rewrite !map_app, <- !app_assoc. simpl.
  split; [reflexivity |]. split; [reflexivity |]. split.
  - rewrite nth_error_app2 by (rewrite length_map; lia).
    rewrite length_map, Nat.sub_diag. reflexivity.
  - intros j.
    rewrite !nth_error_app2 by (rewrite length_map; lia).
    rewrite !length_map.
    replace (length (reactants st) + 1 + j - length (reactants st))%nat with (S j) by lia.
    replace (length (reactants st) + j - length (reactants st))%nat with j by lia.
    reflexivity.
Qed.

Lemma add_reactant_enters_before_products_witness :
  let st' := snd (add_reactant "C" ten A_B) in
  initial_concentrations st' =
    map initial (reactants A_B) ++ ten :: map initial (products A_B) /\
  species_names st' =
    map name (reactants A_B) ++ "C" :: map name (products A_B) /\
  nth_error (initial_concentrations st') (length (reactants A_B)) = Some ten /\
  forall j,
    nth_error (initial_concentrations st') (length (reactants A_B) + 1 + j) =
    nth_error (initial_concentrations A_B) (length (reactants A_B) + j).
Proof. apply (add_reactant_enters_before_products "C" ten A_B). discriminate. Defined.

(** X6. Removing the species that was just added gives back the session state as
    it was, for a reactant and for a product. *)
Theorem remove_undoes_add (species_name : string) (c : float) (st : session_state) :
  species_name <> "" ->
  remove_reactant (length (reactants st)) (snd (add_reactant species_name c st)) = Some st /\
  remove_product (length (products st)) (snd (add_product species_name c st)) = Some st.
Proof.
  intros Hne. unfold remove_reactant, remove_product, add_reactant, add_product.
  destruct (String.eqb_spec species_name "") as [Heq | _]; [contradiction |].
  simpl. rewrite !list_pop_last. destruct st; split; reflexivity.
Qed.

Lemma remove_undoes_add_witness :
  remove_reactant (length (reactants A_B)) (snd (add_reactant "C" ten A_B)) = Some A_B /\
  remove_product (length (products A_B)) (snd (add_product "C" ten A_B)) = Some A_B.
Proof. apply (remove_undoes_add "C" ten A_B). discriminate. Defined.

Lemma list_pop_cases {A : Type} (i : nat) (l : list A) :
  match list_pop i l with
  | Some rest =>
      (i < length l)%nat /\
      length l = S (length rest) /\
      forall j, nth_error rest j = nth_error l (if (j <? i)%nat then j else S j)
  | None => (length l <= i)%nat
  end.
Proof.
  destruct (list_pop i l) as [rest |] eqn:Hpop.
  - split; [| split].
    + unfold list_pop in Hpop.
      destruct (Nat.ltb_spec i (length l)) as [Hlt | _]; [exact Hlt | discriminate].
    + exact (list_pop_length i l rest Hpop).
    + intros j. exact (list_pop_nth_error i j l rest Hpop).
  - unfold list_pop in Hpop.
    destruct (Nat.ltb_spec i (length l)) as [_ | Hge]; [discriminate | exact Hge].
Qed.

(** X7. The "remove" button of reactant [i] takes out that reactant and nothing
    else: the reactants behind it move one place down and the products stay
    as they are.  The pop fails only for an index past the end of the list. *)
Theorem remove_reactant_takes_one_out (i : nat) (st : session_state) :
  match remove_reactant i st with
  | Some st' =>
      (i < length (reactants st))%nat /\
      products st' = products st /\
      length (reactants st) = S (length (reactants st')) /\
      forall j, nth_error (reactants st') j =
                nth_error (reactants st) (if (j <? i)%nat then j else S j)
  | None => (length (reactants st) <= i)%nat
  end.
Proof.
  unfold remove_reactant. pose proof (list_pop_cases i (reactants st)) as H.
  destruct (list_pop i (reactants st)) as [rest |]; [| exact H].
  destruct H as (Hi & Hlen & Hnth). simpl. repeat split; assumption.
Qed.

(** X8. The "remove" button of product [i] takes out that product and nothing
    else: the products behind it move one place down and the reactants stay
    as they are.  The pop fails only for an index past the end of the list. *)
Theorem remove_product_takes_one_out (i : nat) (st : session_state) :
  match remove_product i st with
  | Some st' =>
      (i < length (products st))%nat /\
      reactants st' = reactants st /\
      length (products st) = S (length (products st')) /\
      forall j, nth_error (products st') j =
                nth_error (products st) (if (j <? i)%nat then j else S j)
  | None => (length (products st) <= i)%nat
  end.
Proof.
  unfold remove_product. pose proof (list_pop_cases i (products st)) as H.
  destruct (list_pop i (products st)) as [rest |]; [| exact H].
  destruct H as (Hi & Hlen & Hnth). simpl. repeat split; assumption.
Qed.

(** X9. Adding a reactant and adding a product can be done in either order. *)
Theorem add_reactant_add_product_commute
    (reactant_name product_name : string) (c_r c_p : float) (st : session_state) :
  snd (add_product product_name c_p (snd (add_reactant reactant_name c_r st))) =
  snd (add_reactant reactant_name c_r (snd (add_product product_name c_p st))).
Proof.
  unfold add_reactant, add_product.
  destruct (String.eqb reactant_name ""), (String.eqb product_name ""); reflexivity.
Qed.

(** X10. No check for a name already in use: every press of "add reactant" with a
    non-empty name adds one more species of that name. *)
Theorem add_reactant_keeps_duplicates
    (reactant_name : string) (c : float) (st : session_state) :
  reactant_name <> "" ->
  count_occ string_dec
    (map name (reactants (snd (add_reactant reactant_name c st)))) reactant_name =
  S (count_occ string_dec (map name (reactants st)) reactant_name).
Proof.
  intros Hne. unfold add_reactant.
  destruct (String.eqb_spec reactant_name "") as [Heq | _]; [contradiction |].
  simpl. rewrite map_app, count_occ_app. simpl.
  destruct (string_dec reactant_name reactant_name) as [_ | Hn]; [lia | congruence].
Qed.

Lemma add_reactant_keeps_duplicates_witness :
  count_occ string_dec (map name (reactants (snd (add_reactant "A" ten A_B)))) "A" =
  S (count_occ string_dec (map name (reactants A_B)) "A").
Proof. apply (add_reactant_keeps_duplicates "A" ten A_B). discriminate. Defined.

Lemma names_nonempty_add (n : string) (names : list string) :
  Forall (fun x => x <> "") names -> n <> "" -> Forall (fun x => x <> "") (names ++ [n]).
Proof. intros H Hn. apply Forall_app. split; [exact H | constructor; [exact Hn | constructor]]. Qed.

Lemma names_nonempty_pop (i : nat) (l rest : list species) :
  list_pop i l = Some rest ->
  Forall (fun x => x <> "") (map name l) -> Forall (fun x => x <> "") (map name rest).
Proof.
  intros Hpop Hall. rewrite Forall_forall in *. intros x Hin.
  apply in_map_iff in Hin. destruct Hin as (sp & <- & Hsp).
  apply Hall. apply in_map. exact (list_pop_In i l rest sp Hpop Hsp).
Qed.

Lemma apply_edit_names (ed : edit) (st st' : session_state) :
  apply_edit ed st = Some st' ->
  Forall (fun x => x <> "") (map name (reactants st)) /\
  Forall (fun x => x <> "") (map name (products st)) ->
  Forall (fun x => x <> "") (map name (reactants st')) /\
  Forall (fun x => x <> "") (map name (products st')).
Proof.
  intros Hed [Hr Hp]. destruct ed as [n c | i | n c | i]; simpl in Hed.
  - inversion Hed; subst. unfold add_reactant.
    destruct (String.eqb_spec n "") as [_ | Hne]; simpl; [split; assumption |].
    split; [| exact Hp]. rewrite map_app. apply names_nonempty_add; assumption.
  - unfold remove_reactant in Hed.
    destruct (list_pop i (reactants st)) as [rest |] eqn:Hpop; [| discriminate].
    inversion Hed; subst; simpl. split; [| exact Hp].
    exact (names_nonempty_pop i _ _ Hpop Hr).
  - inversion Hed; subst. unfold add_product.
    destruct (String.eqb_spec n "") as [_ | Hne]; simpl; [split; assumption |].
    split; [exact Hr |]. rewrite map_app. apply names_nonempty_add; assumption.
  - unfold remove_product in Hed.
    destruct (list_pop i (products st)) as [rest |] eqn:Hpop; [| discriminate].
    inversion Hed; subst; simpl. split; [exact Hr |].
    exact (names_nonempty_pop i _ _ Hpop Hp).
Qed.

(** X11. Whatever buttons were pressed since the session started, no species in
    the session state has an empty name. *)
Theorem species_names_never_empty (eds : list edit) (st : session_state) :
  apply_edits eds fresh_session = Some st ->
  Forall (fun n => n <> "") (species_names st).
Proof.
  assert (Hgen : forall eds st0 st1,
             apply_edits eds st0 = Some st1 ->
             Forall (fun x => x <> "") (map name (reactants st0)) /\
             Forall (fun x => x <> "") (map name (products st0)) ->
             Forall (fun x => x <> "") (map name (reactants st1)) /\
             Forall (fun x => x <> "") (map name (products st1))).
  { clear. induction eds as [| ed eds IH]; intros st0 st1 Hrun Hinv; simpl in Hrun.
    - inversion Hrun; subst. exact Hinv.
    - destruct (apply_edit ed st0) as [st' |] eqn:Hed; [| discriminate].
      apply (IH st' st1 Hrun). exact (apply_edit_names ed st0 st' Hed Hinv). }
  intros Hrun. unfold species_names. apply Forall_app.
  apply (Hgen eds fresh_session st Hrun). simpl. split; constructor.
Qed.

Lemma species_names_never_empty_witness :
  Forall (fun n => n <> "")
    (species_names
       {| reactants := [{| name := "B"; initial := ten |}];
          products := [{| name := "C"; initial := zero |}] |}).
Proof.
  apply (species_names_never_empty
           [Add_reactant "A" one; Add_reactant "" one; Add_reactant "B" ten;
            Add_product "C" zero; Remove_reactant 0]).
  reflexivity.
Defined.

End Species_edits.

(** * The rate function: cancellation and depleted species *)

Section Depletion.

Lemma mul_finite_zero (a b : float) :
  is_finite a = true -> is_zero b = true -> is_zero (a * b)%f64 = true.
Proof.
  destruct b as [sb | | |]; try discriminate.
  destruct a as [sa | sa | | sa m e]; simpl; intros H _; try discriminate; reflexivity.
Qed.

(** Once the running product is a zero it stays one, as long as the factors
    that follow are finite. *)
Lemma fold_mul_zero (post : list float) (a : float) :
  is_zero a = true ->
  Forall (fun c => is_finite c = true) post ->
  is_zero (fold_left mul post a) = true.
Proof.
  revert a; induction post as [| c post IH]; intros a Ha Hpost; simpl.
  - exact Ha.
  - inversion Hpost; subst. apply IH; [| assumption].
    apply mul_zero_finite; assumption.
Qed.

Lemma np_prod_zero (pre post : list float) (z : float) :
  is_finite (np_prod pre) = true ->
  is_zero z = true ->
  Forall (fun c => is_finite c = true) post ->
  is_zero (np_prod (pre ++ z :: post)) = true.
Proof.
  intros Hpre Hz Hpost. unfold np_prod. rewrite fold_left_app. simpl.
  apply fold_mul_zero; [| exact Hpost].
  apply mul_finite_zero; assumption.
Qed.

(** With a zero forward rate the two expressions of the derivative are the
    reverse rate and its opposite. *)
Lemma zero_forward_net (f r : float) :
  is_zero f = true ->
  same_number (- f + r)%f64 r /\ same_number (f - r)%f64 (- r)%f64.
Proof.
  destruct f as [sf | | |]; try discriminate. intros _.
  destruct r as [sr | sr | | sr m e].
  - split; right; split; destruct sf, sr; reflexivity.
  - split; left; reflexivity.
  - split; left; reflexivity.
  - split; left; reflexivity.
Qed.

(** With a zero reverse rate they are the opposite of the forward rate and
    the forward rate. *)
Lemma zero_reverse_net (f r : float) :
  is_zero r = true ->
  same_number (- f + r)%f64 (- f)%f64 /\ same_number (f - r)%f64 f.
Proof.
  destruct r as [sr | | |]; try discriminate. intros _.
  destruct f as [sf | sf | | sf m e].
  - split; right; split; destruct sf, sr; reflexivity.
  - split; left; reflexivity.
  - split; left; reflexivity.
  - split; left; reflexivity.
Qed.

Lemma firstn_reactants (front back : list float) (n : nat) :
  length front = n -> firstn n (front ++ back) = front /\ skipn n (front ++ back) = back.
Proof.
  intros <-. split.
  - rewrite firstn_app, Nat.sub_diag, firstn_all. simpl. apply app_nil_r.
  - rewrite skipn_app, Nat.sub_diag, skipn_all. reflexivity.
Qed.

(** The entries of the derivative, by position. *)
Lemma reaction_rate_entries (st : session_state) (C : list float) (t kf K : float) :
  eqb K zero = false ->
  let n := length (reactants st) in
  exists dCdt,
    fst (reaction_rate C t kf K st) = Ok dCdt /\
    (forall i, (i < n)%nat ->
       nth_error dCdt i = Some (- forward_rate n C kf + reverse_rate n C kf K)%f64) /\
    (forall j, (n <= j < n + length (products st))%nat ->
       nth_error dCdt j = Some (net_rate n C kf K)).
Proof.
  intros HK n. rewrite (reaction_rate_value st C t kf K HK).
  eexists; split; [reflexivity |]. split.
  - intros i Hi. rewrite nth_error_app1 by (rewrite repeat_length; exact Hi).
    apply nth_error_repeat; exact Hi.
  - intros j [Hlo Hhi].
    rewrite nth_error_app2 by (rewrite repeat_length; exact Hlo).
    rewrite repeat_length. apply nth_error_repeat. fold n. lia.
Qed.

(** X12. Whatever the numbers of reactants and of products, the derivative of any
    reactant and the derivative of any product add up to zero whenever the
    net rate is finite: what one side loses the other side gains. *)
Theorem reactant_product_derivatives_cancel
    (st : session_state) (C : list float) (t kf K : float) (i j : nat) :
  ltb zero K = true ->
  is_finite (net_rate (length (reactants st)) C kf K) = true ->
  (i < length (reactants st))%nat ->
  (length (reactants st) <= j < length (reactants st) + length (products st))%nat ->
  exists dCdt d_i d_j,
    fst (reaction_rate C t kf K st) = Ok dCdt /\
    nth_error dCdt i = Some d_i /\
    nth_error dCdt j = Some d_j /\
    is_zero (d_i + d_j)%f64 = true.
Proof.
  intros HK Hfin Hi Hj.
  destruct (reaction_rate_entries st C t kf K (positive_nonzero K HK))
    as (dCdt & Hrun & Hreact & Hprod).
  exists dCdt. do 2 eexists.
  split; [exact Hrun |]. split; [exact (Hreact i Hi) |]. split; [exact (Hprod j Hj) |].
  apply add_opposites; [apply add_opp_sub | exact Hfin].
Qed.

Lemma reactant_product_derivatives_cancel_witness :
  exists dCdt d_i d_j,
    fst (reaction_rate [one; ten; zero] zero one one AB_C) = Ok dCdt /\
    nth_error dCdt 1 = Some d_i /\
    nth_error dCdt 2 = Some d_j /\
    is_zero (d_i + d_j)%f64 = true.
Proof.
  apply (reactant_product_derivatives_cancel AB_C [one; ten; zero] zero one one 1 2);
    first [reflexivity | simpl; lia].
Defined.

(** X13. A reactant that is used up stops the forward reaction: when one reactant
    concentration is a zero, the product of the concentrations before it is
    finite and the ones after it are finite, the forward rate is a zero for
    every finite [kf]; every reactant entry of the derivative is then the
    reverse rate and every product entry its opposite. *)
Theorem depleted_reactant_stops_forward
    (st : session_state) (pre post products_conc : list float) (z t kf K : float) :
  length (pre ++ z :: post) = length (reactants st) ->
  is_zero z = true ->
  is_finite (np_prod pre) = true ->
  Forall (fun c => is_finite c = true) post ->
  is_finite kf = true ->
  ltb zero K = true ->
  let C := (pre ++ z :: post) ++ products_conc in
  let n := length (reactants st) in
  is_zero (forward_rate n C kf) = true /\
  exists dCdt,
    fst (reaction_rate C t kf K st) = Ok dCdt /\
    (forall i, (i < n)%nat ->
       exists d, nth_error dCdt i = Some d /\ same_number d (reverse_rate n C kf K)) /\
    (forall j, (n <= j < n + length (products st))%nat ->
       exists d, nth_error dCdt j = Some d /\
                 same_number d (- reverse_rate n C kf K)%f64).
Proof.
  intros Hlen Hz Hpre Hpost Hkf HK C n.
  assert (Hf : is_zero (forward_rate n C kf) = true).
  { unfold forward_rate, C, n.
    rewrite (proj1 (firstn_reactants _ products_conc _ Hlen)).
    apply mul_finite_zero; [exact Hkf |]. apply np_prod_zero; assumption. }
  split; [exact Hf |].
  destruct (reaction_rate_entries st C t kf K (positive_nonzero K HK))
    as (dCdt & Hrun & Hreact & Hprod).
  destruct (zero_forward_net _ (reverse_rate n C kf K) Hf) as [Hadd Hsub].
  exists dCdt. split; [exact Hrun |]. split.
  - intros i Hi. eexists; split; [exact (Hreact i Hi) | exact Hadd].
  - intros j Hj. eexists; split; [exact (Hprod j Hj) | exact Hsub].
Qed.

Lemma depleted_reactant_stops_forward_witness :
  let C := ([ten] ++ zero :: []) ++ [one] in
  let n := length (reactants AB_C) in
  is_zero (forward_rate n C one) = true /\
  exists dCdt,
    fst (reaction_rate C zero one one AB_C) = Ok dCdt /\
    (forall i, (i < n)%nat ->
       exists d, nth_error dCdt i = Some d /\ same_number d (reverse_rate n C one one)) /\
    (forall j, (n <= j < n + length (products AB_C))%nat ->
       exists d, nth_error dCdt j = Some d /\
                 same_number d (- reverse_rate n C one one)%f64).
Proof.
  apply (depleted_reactant_stops_forward AB_C [ten] [] [one] zero zero one one);
    first [reflexivity | constructor].
Defined.

(** The finiteness of the product before the zero is needed: two reactants at
    [1e200] ahead of the depleted one overflow the running product, and the
    product of the concentrations is NaN instead of zero; with the zero in
    front it is a zero. *)
Example np_prod_order :
  np_prod [large; large; zero] = nan /\ np_prod [zero; large; large] = zero.
Proof. split; vm_compute; reflexivity. Qed.

(** X14. A product that is used up stops the reverse reaction: when one product
    concentration is a zero, the product of the concentrations before it is
    finite and the ones after it are finite, the reverse rate is a zero
    whenever [kf / K] is finite; every reactant entry of the derivative is
    then the opposite of the forward rate and every product entry the forward
    rate. *)
Theorem depleted_product_stops_reverse
    (st : session_state) (reactants_conc pre post : list float) (z t kf K : float) :
  length reactants_conc = length (reactants st) ->
  is_zero z = true ->
  is_finite (np_prod pre) = true ->
  Forall (fun c => is_finite c = true) post ->
  is_finite (kf / K)%f64 = true ->
  ltb zero K = true ->
  let C := reactants_conc ++ (pre ++ z :: post) in
  let n := length (reactants st) in
  is_zero (reverse_rate n C kf K) = true /\
  exists dCdt,
    fst (reaction_rate C t kf K st) = Ok dCdt /\
    (forall i, (i < n)%nat ->
       exists d, nth_error dCdt i = Some d /\
                 same_number d (- forward_rate n C kf)%f64) /\
    (forall j, (n <= j < n + length (products st))%nat ->
       exists d, nth_error dCdt j = Some d /\ same_number d (forward_rate n C kf)).
Proof.
  intros Hlen Hz Hpre Hpost Hkr HK C n.
  assert (Hr : is_zero (reverse_rate n C kf K) = true).
  { unfold reverse_rate, C, n.
    rewrite (proj2 (firstn_reactants reactants_conc _ _ Hlen)).
    apply mul_finite_zero; [exact Hkr |]. apply np_prod_zero; assumption. }
  split; [exact Hr |].
  destruct (reaction_rate_entries st C t kf K (positive_nonzero K HK))
    as (dCdt & Hrun & Hreact & Hprod).
  destruct (zero_reverse_net (forward_rate n C kf) _ Hr) as [Hadd Hsub].
  exists dCdt. split; [exact Hrun |]. split.
  - intros i Hi. eexists; split; [exact (Hreact i Hi) | exact Hadd].
  - intros j Hj. eexists; split; [exact (Hprod j Hj) | exact Hsub].
Qed.

Lemma depleted_product_stops_reverse_witness :
  let C := [one] ++ ([] ++ zero :: []) in
  let n := length (reactants A_B) in
  is_zero (reverse_rate n C one one) = true /\
  exists dCdt,
    fst (reaction_rate C zero one one A_B) = Ok dCdt /\
    (forall i, (i < n)%nat ->
       exists d, nth_error dCdt i = Some d /\
                 same_number d (- forward_rate n C one)%f64) /\
    (forall j, (n <= j < n + length (products A_B))%nat ->
       exists d, nth_error dCdt j = Some d /\ same_number d (forward_rate n C one)).
Proof.
  apply (depleted_product_stops_reverse A_B [one] [] [] zero zero one one);
    first [reflexivity | constructor].
Defined.

End Depletion.

(** * The plot *)

Section Plot.

Variable odeint : integrator.

Lemma column_rows (i : nat) (solution : list (list float)) (ys : list float) :
  column i solution = Some ys ->
  length ys = length solution /\
  hd_error ys = match solution with [] => None | row :: _ => nth_error row i end.
Proof.
  revert ys; induction solution as [| row rest IH]; intros ys H; simpl in H.
  - inversion H; subst. split; reflexivity.
  - destruct (nth_error row i) as [v |]; [| discriminate].
    destruct (column i rest) as [below |]; [| discriminate].
    inversion H; subst. destruct (IH below eq_refl) as [Hlen _].
    split; [simpl; congruence | reflexivity].
Qed.

(** A solution of the shape [(len(t), n)] has every column [i < n]. *)
Lemma column_total (i n : nat) (solution : list (list float)) :
  Forall (fun row => length row = n) solution -> (i < n)%nat ->
  exists ys, column i solution = Some ys.
Proof.
  intros Hrows Hi. induction Hrows as [| row rest Hrow _ IH]; simpl.
  - eexists; reflexivity.
  - destruct IH as (below & ->).
    destruct (nth_error row i) as [v |] eqn:Hv.
    + eexists; reflexivity.
    + apply nth_error_None in Hv. lia.
Qed.

(** The plot loop without a selected species draws nothing and reads no
    column. *)
Lemma plot_species_none (names : list string) (t : list float)
    (solution : list (list float)) :
  forall i drawn, plot_species names i [] t solution drawn = inr drawn.
Proof. induction names as [| species rest IH]; intros i drawn; simpl; [reflexivity | apply IH]. Qed.

(** On a solution of the right shape the plot loop draws one line per
    selected species, in the order of the names, each from the column of its
    own index. *)
Lemma plot_species_lines (sel : list string) (t : list float)
    (solution : list (list float)) (n : nat) :
  Forall (fun row => length row = n) solution ->
  length solution = length t ->
  forall names i drawn,
    (i + length names <= n)%nat ->
    exists new,
      plot_species names i sel t solution drawn = inr (drawn ++ new) /\
      Forall2 (fun p line =>
                 label line = snd p /\ xdata line = t /\
                 column (fst p) solution = Some (ydata line))
              (filter (fun p => is_selected sel (snd p))
                      (combine (seq i (length names)) names))
              new.
Proof.
  intros Hrows Hlen. induction names as [| species rest IH]; intros i drawn Hi.
  - exists []. split; [simpl; now rewrite app_nil_r | constructor].
  - simpl in Hi. simpl.
    destruct (is_selected sel species).
    + destruct (column_total i n solution Hrows) as (ys & Hcol); [lia |].
      unfold ax_plot. rewrite Hcol.
      destruct (column_rows i solution ys Hcol) as [Hys _].
      replace (length t =? length ys)%nat with true
        by (symmetry; apply Nat.eqb_eq; congruence).
      destruct (IH (S i) (drawn ++ [{| label := species; xdata := t; ydata := ys |}]))
        as (new & Hrun & Hnew); [lia |].
      exists ({| label := species; xdata := t; ydata := ys |} :: new).
      split.
      * rewrite Hrun, <- app_assoc. reflexivity.
      * constructor; [simpl; repeat split; exact Hcol | exact Hnew].
    + destruct (IH (S i) drawn) as (new & Hrun & Hnew); [lia |].
      exists new. split; assumption.
Qed.

Lemma filter_combine_names (sel : list string) (names : list string) (i : nat) :
  map snd (filter (fun p : nat * string => is_selected sel (snd p))
                  (combine (seq i (length names)) names)) =
  filter (is_selected sel) names.
Proof.
  revert i; induction names as [| species rest IH]; intros i; simpl; [reflexivity |].
  destruct (is_selected sel species); simpl; now rewrite IH.
Qed.

Lemma Forall2_labels (pairs : list (nat * string)) (new : list line2d)
    (t : list float) (solution : list (list float)) :
  Forall2 (fun p line =>
             label line = snd p /\ xdata line = t /\
             column (fst p) solution = Some (ydata line)) pairs new ->
  map label new = map snd pairs.
Proof.
  induction 1 as [| p line pairs new (Hl & _) _ IH]; simpl; [reflexivity |].
  now rewrite Hl, IH.
Qed.

Lemma in_filter_combine (sel : list string) (names : list string) (p : nat * string) :
  forall i,
    In p (filter (fun q : nat * string => is_selected sel (snd q))
                 (combine (seq i (length names)) names)) ->
    (i <= fst p)%nat /\ nth_error names (fst p - i) = Some (snd p) /\
    is_selected sel (snd p) = true.
Proof.
  induction names as [| species rest IH]; intros i Hin; simpl in Hin; [contradiction |].
  destruct (is_selected sel species) eqn:Hsel.
  - destruct Hin as [<- | Hin].
    + simpl. rewrite Nat.sub_diag. repeat split; [lia | exact Hsel].
    + destruct (IH (S i) Hin) as (Hle & Hnth & Hs).
      split; [lia |]. split; [| exact Hs].
      replace (fst p - i)%nat with (S (fst p - S i)) by lia. exact Hnth.
  - destruct (IH (S i) Hin) as (Hle & Hnth & Hs).
    split; [lia |]. split; [| exact Hs].
    replace (fst p - i)%nat with (S (fst p - S i)) by lia. exact Hnth.
Qed.

Lemma Forall2_In_r {A B : Type} (R : A -> B -> Prop) (l : list A) (l' : list B) (b : B) :
  Forall2 R l l' -> In b l' -> exists a, In a l /\ R a b.
Proof.
  induction 1 as [| a b' l l' Hab _ IH]; intros Hin; simpl in Hin; [contradiction |].
  destruct Hin as [<- | Hin].
  - exists a. split; [left; reflexivity | exact Hab].
  - destruct (IH Hin) as (a' & Ha' & HR). exists a'. split; [right; exact Ha' | exact HR].
Qed.

Lemma is_selected_In (species : string) (sel : list string) :
  is_selected sel species = true <-> In species sel.
Proof.
  unfold is_selected. rewrite existsb_exists. split.
  - intros (x & Hin & Heq). apply String.eqb_eq in Heq. now subst.
  - intros Hin. exists species. split; [exact Hin | apply String.eqb_refl].
Qed.

Lemma filter_all {A : Type} (keep : A -> bool) (l : list A) :
  Forall (fun a => keep a = true) l -> filter keep l = l.
Proof.
  induction 1 as [| a l Ha _ IH]; simpl; [reflexivity |]. now rewrite Ha, IH.
Qed.

Lemma Forall2_nth_error_r {A B : Type} (R : A -> B -> Prop) (l : list A) (l' : list B) :
  Forall2 R l l' ->
  forall i b, nth_error l' i = Some b -> exists a, nth_error l i = Some a /\ R a b.
Proof.
  induction 1 as [| a b' l l' Hab _ IH]; intros [| i] b Hb; simpl in Hb; try discriminate.
  - inversion Hb; subst. exists a. split; [reflexivity | exact Hab].
  - exact (IH i b Hb).
Qed.

Lemma nth_error_combine_seq (names : list string) (p : nat * string) :
  forall k i,
    nth_error (combine (seq k (length names)) names) i = Some p ->
    fst p = (k + i)%nat /\ nth_error names i = Some (snd p).
Proof.
  induction names as [| species rest IH]; intros k [| i] Hp; simpl in Hp; try discriminate.
  - inversion Hp; subst. simpl. split; [lia | reflexivity].
  - destruct (IH (S k) i Hp) as [Hfst Hnth]. split; [lia | exact Hnth].
Qed.

Lemma names_all_selected (names : list string) (k : nat) (sel : list string) :
  incl names sel ->
  Forall (fun p : nat * string => is_selected sel (snd p) = true)
         (combine (seq k (length names)) names).
Proof.
  revert k; induction names as [| species rest IH]; intros k Hincl; simpl; constructor.
  - apply is_selected_In. apply Hincl. left; reflexivity.
  - apply IH. intros x Hx. apply Hincl. right; exact Hx.
Qed.

(** X15. The run button leaves the species lists as they are, whatever the
    integrator, the font, the selection and the outcome. *)
Theorem run_button_keeps_session
    (custom_font : option font) (sel : list string) (kf K time_end : float)
    (st : session_state) :
  snd (run_button odeint custom_font sel kf K time_end st) = st.
Proof.
  unfold run_button, run_simulation, simulate.
  destruct (is_empty (reactants st) || is_empty (products st)); [reflexivity |].
  cbv zeta. destruct (odeint _ _ _ _) as [solution |]; simpl; [| reflexivity].
  destruct (plot_species _ _ _ _ _ _); [reflexivity |].
  destruct custom_font; reflexivity.
Qed.

(** X16. With nothing selected the simulation is run all the same; its rejection
    and its exceptions come out as they are, and a trajectory gives a figure
    without a single curve, whatever rows the integrator returned. *)
Theorem run_button_empty_selection
    (f : font) (kf K time_end : float) (st : session_state) :
  match fst (run_button odeint (Some f) [] kf K time_end st),
        fst (run_simulation odeint kf K time_end st) with
  | Shown_error message, Rejected message' => message = message'
  | Raised e, Failed e' => e = FromSimulation e'
  | Shown_plot fig, Solved _ => lines fig = [] /\ text_font fig = f
  | _, _ => False
  end.
Proof.
  unfold run_button.
  destruct (run_simulation odeint kf K time_end st) as [[message | e | tr] st'];
    simpl; try reflexivity.
  rewrite plot_species_none. simpl. split; reflexivity.
Qed.

(** X17. Without the font file the script shows the font message and goes on, but
    the run button can never show a plot: [custom_font] was not bound. *)
Theorem missing_font_never_plots
    (path_exists : string -> bool) (sel : list string) (kf K time_end : float)
    (st : session_state) :
  path_exists font_path = false ->
  fst (load_font path_exists) = Some missing_font_message /\
  forall fig,
    fst (run_button odeint (snd (load_font path_exists)) sel kf K time_end st) <>
    Shown_plot fig.
Proof.
  intros Hmissing. unfold load_font. rewrite Hmissing. simpl.
  split; [reflexivity |]. intros fig. unfold run_button.
  destruct (run_simulation odeint kf K time_end st) as [[message | e | tr] st'];
    try discriminate.
  destruct (plot_species _ _ _ _ _ _); discriminate.
Qed.

Hypothesis contract : odeint_contract odeint.

(** Past the guard, with a solution from the integrator: the lines drawn,
    and what the missing or present font makes of them. *)
Lemma run_button_solved
    (custom_font : option font) (sel : list string) (kf K time_end : float)
    (st : session_state) (solution : list (list float)) :
  reactants st <> [] -> products st <> [] ->
  odeint (fun C t kf K => fst (reaction_rate C t kf K st))
         (initial_concentrations st)
         (linspace zero time_end num_samples) (kf, K) = Ok solution ->
  exists drawn,
    run_button odeint custom_font sel kf K time_end st =
      (match custom_font with
       | None => Raised (NameError "custom_font")
       | Some f => Shown_plot {| lines := drawn;
                                 title := "物種濃度隨時間變化";
                                 xlabel := "時間 (秒)";
                                 ylabel := "濃度 (mol/L)";
                                 text_font := f;
                                 legend := true;
                                 grid := true |}
       end, st) /\
    Forall2 (fun p line =>
               label line = snd p /\
               xdata line = linspace zero time_end num_samples /\
               column (fst p) solution = Some (ydata line))
            (filter (fun p => is_selected sel (snd p))
                    (combine (seq 0 (length (species_names st))) (species_names st)))
            drawn.
Proof.
  intros Hr Hp Hrun.
  destruct (odeint_shape contract _ _ _ _ _ Hrun) as [Hlen Hrows].
  destruct (plot_species_lines sel (linspace zero time_end num_samples) solution
              (length (initial_concentrations st)) Hrows Hlen
              (species_names st) 0 [])
    as (drawn & Hplot & Hdrawn);
    [rewrite species_names_length; simpl; lia |].
  exists drawn. split; [| exact Hdrawn].
  unfold run_button. rewrite (run_simulation_guarded odeint kf K time_end st Hr Hp).
  rewrite Hrun. cbn [times concentrations]. rewrite Hplot. simpl.
  destruct custom_font; reflexivity.
Qed.

(** X18. Without the font file the outcome of a run is decided in the order
    of the script: the check of the species lists comes first and shows its
    message; otherwise an exception of the integration leaves the script as
    it is, and no [NameError] occurs; only when [odeint] has returned a
    solution (on which, having the shape [odeint] gives it, the plot loop
    cannot fail) does the run end with [NameError] for [custom_font]. *)
Theorem missing_font_fails_after_integration
    (path_exists : string -> bool) (sel : list string) (kf K time_end : float)
    (st : session_state) :
  path_exists font_path = false ->
  run_button odeint (snd (load_font path_exists)) sel kf K time_end st =
    (if is_empty (reactants st) || is_empty (products st)
     then Shown_error missing_species_message
     else match odeint (fun C t kf K => fst (reaction_rate C t kf K st))
                       (initial_concentrations st)
                       (linspace zero time_end num_samples) (kf, K) with
          | Ok _ => Raised (NameError "custom_font")
          | Raise e => Raised (FromSimulation e)
          end, st).
Proof.
  intros Hmissing.
  destruct (is_empty (reactants st) || is_empty (products st)) eqn:Hguard.
  - unfold run_button, run_simulation. rewrite Hguard. reflexivity.
  - apply orb_false_iff in Hguard. destruct Hguard as [Hr Hp].
    assert (Hr' : reactants st <> []) by (destruct (reactants st); [discriminate | congruence]).
    assert (Hp' : products st <> []) by (destruct (products st); [discriminate | congruence]).
    destruct (odeint _ _ _ _) as [solution | e] eqn:Hrun.
    + destruct (run_button_solved (snd (load_font path_exists)) sel kf K time_end st
                  solution Hr' Hp' Hrun) as (drawn & Hbutton & _).
      rewrite Hbutton. unfold load_font. rewrite Hmissing. reflexivity.
    + unfold run_button.
      rewrite (run_simulation_guarded odeint kf K time_end st Hr' Hp'), Hrun.
      reflexivity.
Qed.

(** X19. With the font loaded, a run whose integration succeeds shows a figure
    with one curve per selected species, labelled with the species names in
    the order of the species lists (reactants, then products; the order of the
    selection plays no part), every curve over the 1000 sample times. *)
Theorem run_button_plots_selection
    (f : font) (sel : list string) (kf K time_end : float)
    (st : session_state) (solution : list (list float)) :
  reactants st <> [] -> products st <> [] ->
  odeint (fun C t kf K => fst (reaction_rate C t kf K st))
         (initial_concentrations st)
         (linspace zero time_end num_samples) (kf, K) = Ok solution ->
  exists fig,
    run_button odeint (Some f) sel kf K time_end st = (Shown_plot fig, st) /\
    text_font fig = f /\
    map label (lines fig) = filter (is_selected sel) (species_names st) /\
    Forall (fun line =>
              xdata line = linspace zero time_end num_samples /\
              length (xdata line) = 1000%nat /\
              length (ydata line) = 1000%nat)
           (lines fig).
Proof.
  intros Hr Hp Hrun.
  destruct (run_button_solved (Some f) sel kf K time_end st solution Hr Hp Hrun)
    as (drawn & Hbutton & Hdrawn).
  eexists. split; [exact Hbutton |]. cbn [lines text_font].
  split; [reflexivity |]. split.
  - rewrite (Forall2_labels _ _ _ _ Hdrawn). apply filter_combine_names.
  - destruct (odeint_shape contract _ _ _ _ _ Hrun) as [Hlen _].
    pose proof (linspace_length zero time_end num_samples) as Ht.
    apply Forall_forall. intros line Hin.
    destruct (Forall2_In_r _ _ _ _ Hdrawn Hin) as (p & _ & _ & Hx & Hcol).
    destruct (column_rows _ _ _ Hcol) as [Hys _].
    rewrite Hx. split; [reflexivity |]. split; [exact Ht |].
    rewrite Hys, Hlen. exact Ht.
Qed.

(** X20. Every curve of the figure belongs to a species: it carries the name of
    a selected species, its data is the column of the solution at the index
    of that species, and it starts at the initial concentration of that
    species. *)
Theorem plotted_curve_is_species_column
    (f : font) (sel : list string) (kf K time_end : float)
    (st : session_state) (solution : list (list float)) :
  reactants st <> [] -> products st <> [] ->
  odeint (fun C t kf K => fst (reaction_rate C t kf K st))
         (initial_concentrations st)
         (linspace zero time_end num_samples) (kf, K) = Ok solution ->
  exists fig,
    fst (run_button odeint (Some f) sel kf K time_end st) = Shown_plot fig /\
    forall line, In line (lines fig) ->
      In (label line) sel /\
      exists i,
        nth_error (species_names st) i = Some (label line) /\
        column i solution = Some (ydata line) /\
        hd_error (ydata line) = nth_error (initial_concentrations st) i.
Proof.
  intros Hr Hp Hrun.
  destruct (run_button_solved (Some f) sel kf K time_end st solution Hr Hp Hrun)
    as (drawn & Hbutton & Hdrawn).
  eexists. split; [rewrite Hbutton; reflexivity |]. cbn [lines].
  intros line Hin.
  destruct (Forall2_In_r _ _ _ _ Hdrawn Hin) as (p & Hp_in & Hl & _ & Hcol).
  destruct (in_filter_combine sel _ p 0 Hp_in) as (_ & Hnth & Hsel).
  rewrite Nat.sub_0_r in Hnth. rewrite Hl.
  split; [apply is_selected_In; exact Hsel |].
  exists (fst p). split; [exact Hnth |]. split; [exact Hcol |].
  destruct (column_rows _ _ _ Hcol) as [_ Hhd]. rewrite Hhd.
  assert (Ht : linspace zero time_end num_samples <> []).
  { intros Hnil. pose proof (linspace_length zero time_end num_samples) as Hl'.
    rewrite Hnil in Hl'. discriminate. }
  pose proof (odeint_initial_row contract _ _ _ _ _ Hrun Ht) as Hfirst.
  destruct solution as [| row rest]; [discriminate |].
  simpl in Hfirst. inversion Hfirst; subst. reflexivity.
Qed.

(** X21. With the default selection, which is every option of the multiselect,
    every species gets its curve: curve [i] of the figure is labelled with
    species [i] of the species lists, its data is column [i] of the solution,
    and it starts at the initial concentration of species [i]. *)
Theorem default_selection_plots_every_species
    (f : font) (kf K time_end : float)
    (st : session_state) (solution : list (list float)) :
  reactants st <> [] -> products st <> [] ->
  odeint (fun C t kf K => fst (reaction_rate C t kf K st))
         (initial_concentrations st)
         (linspace zero time_end num_samples) (kf, K) = Ok solution ->
  exists fig,
    fst (run_button odeint (Some f) (species_options st) kf K time_end st) =
      Shown_plot fig /\
    map label (lines fig) = species_names st /\
    length (lines fig) = (length (reactants st) + length (products st))%nat /\
    forall i line,
      nth_error (lines fig) i = Some line ->
      nth_error (species_names st) i = Some (label line) /\
      column i solution = Some (ydata line) /\
      hd_error (ydata line) = nth_error (initial_concentrations st) i.
Proof.
  intros Hr Hp Hrun.
  destruct (run_button_solved (Some f) (species_options st) kf K time_end st solution
              Hr Hp Hrun) as (drawn & Hbutton & Hdrawn).
  change (species_options st) with (species_names st) in Hdrawn.
  assert (Hlabels : map label drawn = species_names st).
  { rewrite (Forall2_labels _ _ _ _ Hdrawn), filter_combine_names.
    apply filter_all. apply Forall_forall. intros x Hx. apply is_selected_In. exact Hx. }
  rewrite filter_all in Hdrawn by (apply names_all_selected; apply incl_refl).
  eexists. split; [rewrite Hbutton; reflexivity |]. cbn [lines].
  split; [exact Hlabels |]. split.
  { rewrite <- (length_map label), Hlabels, species_names_length.
    apply initial_concentrations_length. }
  intros i line Hline.
  destruct (Forall2_nth_error_r _ _ _ Hdrawn i line Hline) as (p & Hp_i & Hl & _ & Hcol).
  destruct (nth_error_combine_seq _ p 0 i Hp_i) as [Hfst Hnth].
  simpl in Hfst. rewrite Hfst in Hcol. rewrite Hl.
  split; [exact Hnth |]. split; [exact Hcol |].
  destruct (column_rows _ _ _ Hcol) as [_ Hhd]. rewrite Hhd.
  assert (Ht : linspace zero time_end num_samples <> []).
  { intros Hnil. pose proof (linspace_length zero time_end num_samples) as Hl'.
    rewrite Hnil in Hl'. discriminate. }
  pose proof (odeint_initial_row contract _ _ _ _ _ Hrun Ht) as Hfirst.
  destruct solution as [| row rest]; [discriminate |].
  simpl in Hfirst. inversion Hfirst; subst. reflexivity.
Qed.

End Plot.

(** * The plot on sample inputs *)

Section Plot_examples.

Lemma missing_font_never_plots_witness :
  fst (load_font (fun _ => false)) = Some missing_font_message /\
  forall fig,
    fst (run_button odeint_euler (snd (load_font (fun _ => false))) ["A"; "B"]
           one one ten A_B) <> Shown_plot fig.
Proof.
  apply (missing_font_never_plots odeint_euler (fun _ => false) ["A"; "B"] one one ten A_B).
  reflexivity.
Defined.

Lemma missing_font_fails_after_integration_witness :
  run_button odeint_euler (snd (load_font (fun _ => false))) ["A"; "B"] one zero ten A_B =
    (if is_empty (reactants A_B) || is_empty (products A_B)
     then Shown_error missing_species_message
     else match odeint_euler (fun C t kf K => fst (reaction_rate C t kf K A_B))
                             (initial_concentrations A_B)
                             (linspace zero ten num_samples) (one, zero) with
          | Ok _ => Raised (NameError "custom_font")
          | Raise e => Raised (FromSimulation e)
          end, A_B).
Proof.
  apply (missing_font_fails_after_integration odeint_euler odeint_euler_contract
           (fun _ => false) ["A"; "B"] one zero ten A_B).
  reflexivity.
Defined.

(** The three ways a run without the font file ends, on the reference
    integrator: the message of the species check, the error of the
    integration, the failed lookup of the font. *)
Example missing_font_outcomes :
  fst (run_button odeint_euler (snd (load_font (fun _ => false))) [] one one ten
         fresh_session) = Shown_error missing_species_message /\
  fst (run_button odeint_euler (snd (load_font (fun _ => false))) ["A"; "B"] one zero ten
         A_B) = Raised (FromSimulation ZeroDivisionError) /\
  fst (run_button odeint_euler (snd (load_font (fun _ => false))) ["A"; "B"] one one ten
         A_B) = Raised (NameError "custom_font").
Proof. repeat split; vm_compute; reflexivity. Qed.

Lemma run_button_plots_selection_witness :
  exists fig,
    run_button odeint_euler (Some (FontProperties font_path)) ["B"; "X"] one one ten A_B =
      (Shown_plot fig, A_B) /\
    text_font fig = FontProperties font_path /\
    map label (lines fig) = filter (is_selected ["B"; "X"]) (species_names A_B) /\
    Forall (fun line =>
              xdata line = linspace zero ten num_samples /\
              length (xdata line) = 1000%nat /\
              length (ydata line) = 1000%nat)
           (lines fig).
Proof.
  apply (run_button_plots_selection odeint_euler odeint_euler_contract
           (FontProperties font_path) ["B"; "X"] one one ten A_B
           (concentrations A_B_trajectory));
    first [discriminate | vm_compute; reflexivity].
Defined.

Lemma plotted_curve_is_species_column_witness :
  exists fig,
    fst (run_button odeint_euler (Some (FontProperties font_path)) ["B"] one one ten A_B) =
      Shown_plot fig /\
    forall line, In line (lines fig) ->
      In (label line) ["B"] /\
      exists i,
        nth_error (species_names A_B) i = Some (label line) /\
        column i (concentrations A_B_trajectory) = Some (ydata line) /\
        hd_error (ydata line) = nth_error (initial_concentrations A_B) i.
Proof.
  apply (plotted_curve_is_species_column odeint_euler odeint_euler_contract
           (FontProperties font_path) ["B"] one one ten A_B
           (concentrations A_B_trajectory));
    first [discriminate | vm_compute; reflexivity].
Defined.

Lemma default_selection_plots_every_species_witness :
  exists fig,
    fst (run_button odeint_euler (Some (FontProperties font_path)) (species_options A_B)
           one one ten A_B) = Shown_plot fig /\
    map label (lines fig) = species_names A_B /\
    length (lines fig) = (length (reactants A_B) + length (products A_B))%nat /\
    forall i line,
      nth_error (lines fig) i = Some line ->
      nth_error (species_names A_B) i = Some (label line) /\
      column i (concentrations A_B_trajectory) = Some (ydata line) /\
      hd_error (ydata line) = nth_error (initial_concentrations A_B) i.
Proof.
  apply (default_selection_plots_every_species odeint_euler odeint_euler_contract
           (FontProperties font_path) one one ten A_B
           (concentrations A_B_trajectory));
    first [discriminate | vm_compute; reflexivity].
Defined.

End Plot_examples.

(** * Trajectories of the reference integrator

    [scipy.integrate.odeint] is an external library.  What the claims say of
    the trajectory itself is proved here of the reference integrator, the
    explicit Euler method on the sample grid. *)

(** ** The error of an addition *)

Section Addition_error.

Local Open Scope Z_scope.




Lemma value_same_number (x y : float) : same_number x y -> value x = value y.
Proof.
  intros [-> | [Hx Hy]]; [reflexivity |].
  destruct x as [sx | | |], y as [sy | | |]; try discriminate. reflexivity.
Qed.






End Addition_error.

(** ** One reactant and one product: the total is conserved *)

Section Conservation.

Local Open Scope Z_scope.








End Conservation.

Section One_to_one.

Local Open Scope Z_scope.


Variable st : session_state.
Variables kf K : float.
Hypothesis Hr : length (reactants st) = 1%nat.
Hypothesis Hp : length (products st) = 1%nat.
Hypothesis HK : eqb K zero = false.

Let func : rhs := fun C t kf K => fst (reaction_rate C t kf K st).



End One_to_one.

Section Conservation_theorem.

Local Open Scope Z_scope.




(** The sample run: one unit of the reactant, [kf = K = 1], ten time units.
    Its concentrations are of moderate size, and its total stays within
    [1e-6] of the initial total. *)
Example conservation_A_B :
  forallb (forallb moderate) (concentrations A_B_trajectory) = true /\
  forallb (fun row =>
             10 ^ 6 * Z.abs (total row - total (initial_concentrations A_B)) <=? 2 ^ 1074)
          (concentrations A_B_trajectory) = true.
Proof. split; vm_compute; reflexivity. Qed.

End Conservation_theorem.

(** ** No forward reaction: the trajectory is constant *)

Section Constant_trajectory.













Variable st : session_state.
Variables kf K : float.
Hypothesis Hkf : is_zero kf = true.
Hypothesis HK : ltb zero K = true.
Hypothesis Hreactants : is_finite (np_prod (map initial (reactants st))) = true.
Hypothesis Hproducts : is_finite (np_prod (map initial (products st))) = true.

Let func : rhs := fun C t kf K => fst (reaction_rate C t kf K st).





End Constant_trajectory.

Section Constant_theorem.



End Constant_theorem.
